(** * Reference resolver and document flattener of [Getdata.py]

    A shallow embedding of [get_flattened_job_data] and
    [flatten_nested_document] (file [src/Getdata.py]) together with the
    properties of the specification that concern them.

    Modelling conventions.
    - A Python [dict] is an association list in insertion order whose keys
      are pairwise distinct; [dict_set] keeps the position of a key that is
      already present and appends a new key at the end, as Python does.
    - A Python [str] is the [string] of the bytes of its UTF-8 encoding.  The
      suffixes, slices and concatenations of the code act on ASCII text, for
      which bytes and code points coincide; [base_name[0]] is the first code
      point, that is the first byte and the continuation bytes after it.
    - [str.lower] and [str.upper] follow the Unicode tables of the
      interpreter, which are a parameter ([CaseTables]), known on ASCII
      ([agrees_on_ascii]) and never yielding the letter [D] when lower-casing
      ([lower_has_no_D]).
    - The database handle [db] is a record of four read operations on a
      fixed snapshot of the store: the same call gives the same answer,
      which is a value or an exception (a subclass of [Exception]).  Every
      answer is a fresh object, as with [pymongo]: no two fetched documents
      share structure.
    - The body of the [try] block runs in a small monad that carries the list
      of accessor calls made so far and either a raised exception or a
      value.  The [print] of the handler is not modelled, nor is the code
      after the handler, which is never reached. *)

From Stdlib Require Import List String Ascii ZArith Bool Arith Lia.
From Stdlib Require Import DecimalString.
Import ListNotations.
Set Warnings "-register-all".
Open Scope string_scope.
Open Scope list_scope.

(** ** Strings *)

Module Str.

(** The case mappings on the ASCII letters; every other byte is kept. *)
Definition ascii_upper_char (c : ascii) : ascii :=
  let n := nat_of_ascii c in
  if ((97 <=? n) && (n <=? 122))%nat then ascii_of_nat (n - 32) else c.

Definition ascii_lower_char (c : ascii) : ascii :=
  let n := nat_of_ascii c in
  if ((65 <=? n) && (n <=? 90))%nat then ascii_of_nat (n + 32) else c.

Fixpoint ascii_lower (s : string) : string :=
  match s with
  | EmptyString => EmptyString
  | String c r => String (ascii_lower_char c) (ascii_lower r)
  end.

Fixpoint ascii_upper (s : string) : string :=
  match s with
  | EmptyString => EmptyString
  | String c r => String (ascii_upper_char c) (ascii_upper r)
  end.

(** A byte below 128 is an ASCII character. *)
Definition is_ascii_char (c : ascii) : bool := (nat_of_ascii c <? 128)%nat.

Fixpoint is_ascii (s : string) : bool :=
  match s with
  | EmptyString => true
  | String c r => is_ascii_char c && is_ascii r
  end.

(** The bytes [10xxxxxx] continue a code point. *)
Definition is_continuation (c : ascii) : bool :=
  let n := nat_of_ascii c in ((128 <=? n) && (n <? 192))%nat.

(** The continuation bytes at the start of [s], and what follows them. *)
Fixpoint continuation (s : string) : string :=
  match s with
  | EmptyString => EmptyString
  | String c r => if is_continuation c then String c (continuation r) else EmptyString
  end.

Fixpoint after_continuation (s : string) : string :=
  match s with
  | EmptyString => EmptyString
  | String c r => if is_continuation c then after_continuation r else s
  end.

(** [s[:n]] and [s[n:]] for [0 <= n], on ASCII text. *)
Fixpoint take (n : nat) (s : string) : string :=
  match n, s with
  | S n', String c r => String c (take n' r)
  | _, _ => EmptyString
  end.

Fixpoint drop (n : nat) (s : string) : string :=
  match n, s with
  | S n', String _ r => drop n' r
  | _, _ => s
  end.

(** [s[:-n]] for [0 < n], used where [s] ends with [n] ASCII characters:
    everything but the last [n] bytes. *)
Definition drop_last (n : nat) (s : string) : string :=
  take (String.length s - n) s.

(** [s.endswith(suffix)] *)
Definition endswith (s suffix : string) : bool :=
  (String.length suffix <=? String.length s)%nat
  && String.eqb (drop (String.length s - String.length suffix) s) suffix.

(** Occurrence of a character. *)
Fixpoint has_char (c : ascii) (s : string) : bool :=
  match s with
  | EmptyString => false
  | String x r => Ascii.eqb x c || has_char c r
  end.

(** [str(i)] for a non-negative integer. *)
Definition of_nat (i : nat) : string :=
  NilEmpty.string_of_uint (Nat.to_uint i).

End Str.

(** ** The case mappings of the interpreter *)

(** [str_lower s] is [s.lower()] and [str_upper s] is [s.upper()]. *)
Class CaseTables : Type := {
  str_lower : string -> string;
  str_upper : string -> string
}.

(** What the code relies on, and what is known of the tables of Python:
    on ASCII text they are the ASCII mappings, and no code point has a
    lower-case form in which the letter [D] occurs. *)
Definition agrees_on_ascii (U : CaseTables) : Prop :=
  (forall s, Str.is_ascii s = true -> str_lower s = Str.ascii_lower s)
  /\ (forall c, Str.is_ascii_char c = true ->
        str_upper (String c EmptyString) = String (Str.ascii_upper_char c) EmptyString).

Definition lower_has_no_D (U : CaseTables) : Prop :=
  forall s, Str.has_char "D" (str_lower s) = false.

(** The tables restricted to ASCII: every other byte is kept.  They are the
    tables of Python on every name made of ASCII characters. *)
Definition ascii_tables : CaseTables :=
  {| str_lower := Str.ascii_lower; str_upper := Str.ascii_upper |}.

(** ** Documents *)

(** BSON values as the two functions discriminate them: [dict], [list],
    [ObjectId], and the remaining scalars. *)
Inductive bson : Type :=
| VNone
| VBool (b : bool)
| VInt (z : Z)
| VStr (s : string)
| VObjectId (oid : string)
| VDict (d : list (string * bson))
| VList (l : list bson).

Definition dict : Type := list (string * bson).

Definition keys (d : dict) : list string := map fst d.

(** [d.get(k)] *)
Fixpoint dict_get (k : string) (d : dict) : option bson :=
  match d with
  | [] => None
  | (k', v) :: r => if String.eqb k' k then Some v else dict_get k r
  end.

(** [d[k] = v] *)
Fixpoint dict_set (k : string) (v : bson) (d : dict) : dict :=
  match d with
  | [] => [(k, v)]
  | (k', v') :: r =>
      if String.eqb k' k then (k, v) :: r else (k', v') :: dict_set k v r
  end.

(** [isinstance(v, dict)], [isinstance(v, list)], and the remaining case. *)
Definition is_dict (v : bson) : bool :=
  match v with VDict _ => true | _ => false end.

Definition is_list (v : bson) : bool :=
  match v with VList _ => true | _ => false end.

Definition is_scalar (v : bson) : bool := negb (is_dict v) && negb (is_list v).

(** ** Exceptions, accessor calls and the monad of the [try] body *)

(** Only subclasses of [Exception] are modelled: these are the ones the
    handler of [get_flattened_job_data] catches. *)
Inductive exn : Type :=
| IndexError
| AccessorError (msg : string).

Inductive call : Type :=
| CAggregate (limit : Z)
| CListCollectionNames
| CFind (collection : string) (ids : list bson)
| CFindOne (collection : string) (id : bson).

Definition is_fetch (c : call) : bool :=
  match c with
  | CFind _ _ | CFindOne _ _ => true
  | _ => false
  end.

Definition M (A : Type) : Type := (list call * (exn + A))%type.

Definition ret {A : Type} (a : A) : M A := ([], inr a).

Definition raise {A : Type} (e : exn) : M A := ([], inl e).

Definition bind {A B : Type} (m : M A) (f : A -> M B) : M B :=
  match m with
  | (t, inl e) => (t, inl e)
  | (t, inr a) => let '(t', r) := f a in (t ++ t', r)
  end.

Notation "x <- m ;; k" := (bind m (fun x => k))
  (at level 61, m at next level, right associativity).

Definition trace {A : Type} (m : M A) : list call := fst m.
Definition outcome {A : Type} (m : M A) : exn + A := snd m.

(** A [for] loop that threads the mutated object through its iterations. *)
Fixpoint foldM {A S : Type} (body : S -> A -> M S) (l : list A) (s : S) : M S :=
  match l with
  | [] => ret s
  | a :: r => s' <- body s a ;; foldM body r s'
  end.

(** A [for] loop over a list of objects, each mutated in place. *)
Fixpoint mapM {A B : Type} (body : A -> M B) (l : list A) : M (list B) :=
  match l with
  | [] => ret []
  | a :: r => b <- body a ;; bs <- mapM body r ;; ret (b :: bs)
  end.

(** The database handle. [aggregate limit] is
    [list(db.Job.aggregate([{"$limit": limit}]))], [find c ids] is
    [list(db[c].find({"_id": {"$in": ids}}))] and [find_one c id] is
    [db[c].find_one({"_id": id})]. *)
Record Accessor : Type := {
  aggregate : Z -> exn + list dict;
  list_collection_names : exn + list string;
  find : string -> list bson -> exn + list dict;
  find_one : string -> bson -> exn + option dict
}.

(** What the accessor answers to a call, and whether that is an exception. *)
Definition raises (db : Accessor) (c : call) : Prop :=
  match c with
  | CAggregate limit => exists e, aggregate db limit = inl e
  | CListCollectionNames => exists e, list_collection_names db = inl e
  | CFind coll ids => exists e, find db coll ids = inl e
  | CFindOne coll id => exists e, find_one db coll id = inl e
  end.

(** A computation is [sound] when a call that raises ends it with an
    exception. *)
Definition sound {A : Type} (db : Accessor) (m : M A) : Prop :=
  forall c, In c (trace m) -> raises db c -> exists e, outcome m = inl e.

(** ** The resolver: [get_flattened_job_data] *)

Section Resolver.

Context {U : CaseTables}.
Variable db : Accessor.

Definition do_aggregate (limit : Z) : M (list dict) :=
  ([CAggregate limit], aggregate db limit).

Definition do_list_collection_names : M (list string) :=
  ([CListCollectionNames], list_collection_names db).

Definition do_find (coll : string) (ids : list bson) : M (list dict) :=
  ([CFind coll ids], find db coll ids).

Definition do_find_one (coll : string) (id : bson) : M (option dict) :=
  ([CFindOne coll id], find_one db coll id).

(** The loop guard
    [not (key.endswith('ID') and key != '_id') and not key.endswith('IDs')],
    under which the field is passed over. *)
Definition not_reference_key (key : string) : bool :=
  negb (Str.endswith key "ID" && negb (String.eqb key "_id"))
  && negb (Str.endswith key "IDs").

(** [key[:-3], True] for an array of identifiers, [key[:-2], False]
    otherwise. *)
Definition split_key (key : string) : string * bool :=
  if Str.endswith key "IDs" then (Str.drop_last 3 key, true)
  else (Str.drop_last 2 key, false).

(** [base_name[0].upper() + base_name[1:]]; indexing the empty string
    raises [IndexError]. *)
Definition collection_name_of (base_name : string) : M string :=
  match base_name with
  | EmptyString => raise IndexError
  | String c r =>
      ret (str_upper (String c (Str.continuation r)) ++ Str.after_continuation r)%string
  end.

(** [name in names] *)
Definition mem (name : string) (names : list string) : bool :=
  existsb (String.eqb name) names.

(** [if level1_doc:] holds for a dictionary that is not empty. *)
Definition truthy (d : option dict) : bool :=
  match d with
  | Some (_ :: _) => true
  | _ => false
  end.

(** One iteration of the inner loop (lines 85-118) on [level1_doc]. *)
Definition level2_field (level1_doc : dict) (item : string * bson) : M dict :=
  let '(l1_key, l1_value) := item in
  if not_reference_key l1_key then ret level1_doc
  else
    let '(l2_base_name, l2_is_array) := split_key l1_key in
    l2_collection_name <- collection_name_of l2_base_name ;;
    names <- do_list_collection_names ;;
    if negb (mem l2_collection_name names) then ret level1_doc
    else if l2_is_array then
      match l1_value with
      | VList ids =>
          level2_docs <- do_find l2_collection_name ids ;;
          let l2_field_name := (str_lower l2_base_name ++ "s")%string in
          ret (dict_set l2_field_name (VList (map VDict level2_docs)) level1_doc)
      | _ => ret level1_doc
      end
    else
      match l1_value with
      | VObjectId _ =>
          level2_doc <- do_find_one l2_collection_name l1_value ;;
          match level2_doc with
          | Some d =>
              if truthy level2_doc then
                let l2_field_name := str_lower l2_base_name in
                ret (dict_set l2_field_name (VDict d) level1_doc)
              else ret level1_doc
          | None => ret level1_doc
          end
      | _ => ret level1_doc
      end.

(** The inner loop over [list(level1_doc.items())]. *)
Definition resolve_level2 (level1_doc : dict) : M dict :=
  foldM level2_field level1_doc level1_doc.

(** One iteration of the loop over the fields of a job (lines 49-118).
    The job refers to the very dictionary that the inner loop goes on to
    mutate, so once the inner loop is over the job holds the augmented
    document; should the inner loop raise, the job is discarded with
    everything else. *)
Definition level1_field (job : dict) (item : string * bson) : M dict :=
  let '(key, value) := item in
  if not_reference_key key then ret job
  else
    let '(base_name, is_array) := split_key key in
    collection_name <- collection_name_of base_name ;;
    names <- do_list_collection_names ;;
    if negb (mem collection_name names) then ret job
    else if is_array then
      match value with
      | VList ids =>
          level1_docs <- do_find collection_name ids ;;
          let field_name := (str_lower base_name ++ "s")%string in
          ret (dict_set field_name (VList (map VDict level1_docs)) job)
      | _ => ret job
      end
    else
      match value with
      | VObjectId _ =>
          level1_doc <- do_find_one collection_name value ;;
          match level1_doc with
          | Some d =>
              if truthy level1_doc then
                let field_name := str_lower base_name in
                d' <- resolve_level2 d ;;
                ret (dict_set field_name (VDict d') job)
              else ret job
          | None => ret job
          end
      | _ => ret job
      end.

(** The loop over [list(job.items())]. *)
Definition resolve_job (job : dict) : M dict :=
  foldM level1_field job job.

(** The body of the [try] block. *)
Definition resolve_jobs (limit : Z) : M (list dict) :=
  jobs <- do_aggregate limit ;;
  mapM resolve_job jobs.

(** The whole function: any exception gives the empty list. *)
Definition get_flattened_job_data (limit : Z) : list dict :=
  match outcome (resolve_jobs limit) with
  | inl _ => []
  | inr jobs => jobs
  end.

End Resolver.

Arguments resolve_level2 : simpl never.
Arguments resolve_job : simpl never.

(** ** Names used to state the properties *)

(** The collection name the resolver derives from a non-empty base name. *)
Definition capitalize {U : CaseTables} (base_name : string) : string :=
  match base_name with
  | EmptyString => EmptyString
  | String c r =>
      (str_upper (String c (Str.continuation r)) ++ Str.after_continuation r)%string
  end.

Arguments capitalize : simpl never.

(** The field name under which the resolver stores what it fetched for
    [key] (lines 74, 81, 110 and 117). *)
Definition attach_name {U : CaseTables} (key : string) : string :=
  let '(base_name, is_array) := split_key key in
  if is_array then (str_lower base_name ++ "s")%string else str_lower base_name.

(** No reference field among [items] derives the field name [name]. *)
Definition clear_of {U : CaseTables} (name : string) (items : list (string * bson)) :
    Prop :=
  forall it, In it items -> not_reference_key (fst it) = false ->
    attach_name (fst it) <> name.

(** The field name as the specification words it: the base name with its
    first character lower-cased and the others unchanged, followed by [s]
    for a multi-reference. *)
Definition spec_field_name {U : CaseTables} (base_name : string) (is_array : bool) :
    string :=
  let name :=
    match base_name with
    | EmptyString => EmptyString
    | String c r =>
        (str_lower (String c (Str.continuation r)) ++ Str.after_continuation r)%string
    end in
  if is_array then (name ++ "s")%string else name.

(** The fields of a document that follow the reference convention. *)
Definition reference_fields (d : dict) : list (string * bson) :=
  filter (fun it => negb (not_reference_key (fst it))) d.

(** Every field name of the document is made of ASCII characters. *)
Definition ascii_keys (d : dict) : bool :=
  forallb (fun it => Str.is_ascii (fst it)) d.

(** A field of the document outside the reference convention. *)
Definition plain_field (it : string * bson) : Prop :=
  not_reference_key (fst it) = true.

(** Documents exactly as the accessor returned them. *)
Definition fetched_one (db : Accessor) (d : dict) : Prop :=
  exists coll id, find_one db coll id = inr (Some d).

Definition fetched_many (db : Accessor) (ds : list dict) : Prop :=
  exists coll ids, find db coll ids = inr ds.

(** A value attached by the inner loop: a fetched document, or the
    sequence of fetched documents, with nothing added to them. *)
Definition attached_verbatim (db : Accessor) (v : bson) : Prop :=
  (exists d, v = VDict d /\ fetched_one db d)
  \/ (exists ds, v = VList (map VDict ds) /\ fetched_many db ds).

(** A value attached by the outer loop: the sequence of fetched documents
    as returned, or a fetched document [d1] on which the inner loop ran and
    whose fields are then those of [d1] and values attached verbatim. *)
Definition attached_level1 (db : Accessor) (v : bson) : Prop :=
  (exists ds, v = VList (map VDict ds) /\ fetched_many db ds)
  \/ (exists d1 d1',
        v = VDict d1' /\ fetched_one db d1
        /\ forall k2 v2, In (k2, v2) d1' -> In (k2, v2) d1 \/ attached_verbatim db v2).

(** ** The flattener: [flatten_nested_document] *)

(** [f"{prefix}_{key}" if prefix else key] *)
Definition join_key (prefix key : string) : string :=
  match prefix with
  | EmptyString => key
  | _ => (prefix ++ "_" ++ key)%string
  end.

(** [if result is None: result = {}] *)
Definition or_empty (result : option dict) : dict :=
  match result with None => [] | Some r => r end.

(** [result] is [None] for the default argument.  The loop over
    [enumerate(value[:3])] is written as a loop over [value] that counts
    from 0 and stops at index 3; [flatten_dict_eq] below restates the
    function with [firstn 3]. *)
Fixpoint flatten_nested_document
    (doc : bson) (prefix : string) (result : option dict) {struct doc} : dict :=
  let result := or_empty result in
  match doc with
  | VDict d =>
      (fix items (l : list (string * bson)) (result : dict)
           {struct l} : dict :=
         match l with
         | [] => result
         | (key, value) :: rest =>
             let new_key := join_key prefix key in
             items rest
               match value with
               | VDict _ => flatten_nested_document value new_key (Some result)
               | VList elems =>
                   let result :=
                     dict_set (new_key ++ "_count")%string
                              (VInt (Z.of_nat (List.length elems))) result in
                   match elems with
                   | VDict _ :: _ =>
                       (fix first3 (es : list bson) (i : nat)
                            (result : dict) {struct es} : dict :=
                          match es with
                          | [] => result
                          | item :: es' =>
                              if (i <? 3)%nat then
                                first3 es' (S i)
                                  (flatten_nested_document item
                                     (new_key ++ "_" ++ Str.of_nat i)%string
                                     (Some result))
                              else result
                          end) elems 0%nat result
                   | _ => result
                   end
               | _ => dict_set new_key value result
               end
         end) d result
  | _ => result
  end.

(** [enumerate(l)] *)
Definition enumerate {A : Type} (l : list A) : list (nat * A) :=
  combine (seq 0 (List.length l)) l.

(** The loop [for i, item in enumerate(value[:3])] of line 165. *)
Definition flatten_first3 (new_key : string) (elems : list bson) (result : dict) : dict :=
  fold_left
    (fun result '(i, item) =>
       flatten_nested_document item (new_key ++ "_" ++ Str.of_nat i)%string (Some result))
    (enumerate (firstn 3 elems)) result.

(** One iteration of the loop over [doc.items()] (lines 152-169). *)
Definition flatten_field (prefix : string) (result : dict) (item : string * bson) : dict :=
  let '(key, value) := item in
  let new_key := join_key prefix key in
  match value with
  | VDict _ => flatten_nested_document value new_key (Some result)
  | VList elems =>
      let result :=
        dict_set (new_key ++ "_count")%string (VInt (Z.of_nat (List.length elems))) result in
      match elems with
      | VDict _ :: _ => flatten_first3 new_key elems result
      | _ => result
      end
  | _ => dict_set new_key value result
  end.

(** Flattening under a non-empty prefix writes only keys that extend the
    prefix by an underscore. *)
Definition writes_below (v : bson) : Prop :=
  forall prefix r k,
    prefix <> EmptyString ->
    (forall s, k <> (prefix ++ "_" ++ s)%string) ->
    dict_get k (flatten_nested_document v prefix (Some r)) = dict_get k r.

(** ** An in-memory accessor for the scenarios *)

Module Fixture.

Definition same_id (a b : bson) : bool :=
  match a, b with
  | VObjectId x, VObjectId y => String.eqb x y
  | _, _ => false
  end.

Definition has_id (id : bson) (d : dict) : bool :=
  match dict_get "_id" d with
  | Some i => same_id i id
  | None => false
  end.

Definition collection (store : list (string * list dict)) (name : string) : list dict :=
  match List.find (fun c => String.eqb (fst c) name) store with
  | Some c => snd c
  | None => []
  end.

(** A store holding the [Job] collection [jobs] and the collections of
    [store]; no operation raises. *)
Definition memory_db (jobs : list dict) (store : list (string * list dict)) : Accessor :=
  {| aggregate := fun limit => inr (firstn (Z.to_nat limit) jobs);
     list_collection_names := inr ("Job" :: map fst store);
     find := fun name ids =>
       inr (filter (fun d => existsb (fun id => has_id id d) ids) (collection store name));
     find_one := fun name id =>
       inr (List.find (has_id id) (collection store name)) |}.

(** The same store behind a connection on which one kind of call fails. *)
Definition failing (c : call -> bool) (db : Accessor) : Accessor :=
  {| aggregate := fun limit =>
       if c (CAggregate limit) then inl (AccessorError "aggregate") else aggregate db limit;
     list_collection_names :=
       if c CListCollectionNames then inl (AccessorError "list_collection_names")
       else list_collection_names db;
     find := fun name ids =>
       if c (CFind name ids) then inl (AccessorError "find") else find db name ids;
     find_one := fun name id =>
       if c (CFindOne name id) then inl (AccessorError "find_one")
       else find_one db name id |}.

(** The end-to-end scenario of the specification. *)
Definition job_j1 : dict :=
  [("_id", VObjectId "j1"); ("jobLocationID", VObjectId "loc1")].
Definition location_loc1 : dict :=
  [("_id", VObjectId "loc1"); ("customerID", VObjectId "c1"); ("name", VStr "Site A")].
Definition customer_c1 : dict :=
  [("_id", VObjectId "c1"); ("name", VStr "Acme")].

Definition scenario_db : Accessor :=
  memory_db [job_j1]
    [("JobLocation", [location_loc1]); ("Customer", [customer_c1])].

(** A job referring to two technicians of whom one exists; the
    technician refers to a customer. *)
Definition technician_t1 : dict :=
  [("_id", VObjectId "t1"); ("customerID", VObjectId "c1"); ("firstName", VStr "Ann")].
Definition job_j2 : dict :=
  [("_id", VObjectId "j2");
   ("technicianProfileIDs", VList [VObjectId "t1"; VObjectId "t2"])].

Definition team_db : Accessor :=
  memory_db [job_j2]
    [("TechnicianProfile", [technician_t1]); ("Customer", [customer_c1])].

(** A job that already carries a field named like the one the resolver
    derives from [customerID]. *)
Definition job_j3 : dict :=
  [("_id", VObjectId "j3"); ("customer", VStr "Acme Inc");
   ("customerID", VObjectId "c1")].

Definition collision_db : Accessor :=
  memory_db [job_j3] [("Customer", [customer_c1])].

(** A multi-reference field holding a sequence of values that are not
    identifiers. *)
Definition job_j4 : dict :=
  [("_id", VObjectId "j4"); ("tagIDs", VList [VStr "urgent"; VInt 7])].

Definition tags_db : Accessor :=
  memory_db [job_j4] [("Tag", [[("_id", VObjectId "g1"); ("label", VStr "urgent")]])].

(** A batch whose second job has a field named [ID]. *)
Definition job_j5 : dict := [("_id", VObjectId "j5"); ("ID", VInt 5)].

Definition batch_db : Accessor :=
  memory_db [job_j1; job_j5]
    [("JobLocation", [location_loc1]); ("Customer", [customer_c1])].

(** The scenario with a connection that fails on the [Customer]
    collection. *)
Definition on_customer (c : call) : bool :=
  match c with
  | CFindOne coll _ => String.eqb coll "Customer"
  | _ => false
  end.

Definition broken_db : Accessor := failing on_customer scenario_db.

(** The scenario with one more link: the customer refers to a region. *)
Definition customer_c1r : dict :=
  [("_id", VObjectId "c1"); ("name", VStr "Acme"); ("regionID", VObjectId "r1")].
Definition region_r1 : dict := [("_id", VObjectId "r1"); ("name", VStr "North")].

Definition chain_db : Accessor :=
  memory_db [job_j1]
    [("JobLocation", [location_loc1]); ("Customer", [customer_c1r]);
     ("Region", [region_r1])].

(** A document with a sequence of five nested documents. *)
Definition part (n : Z) : bson := VDict [("n", VInt n)].
Definition five_parts : bson :=
  VDict [("no", VStr "J-001"); ("parts", VList [part 10; part 11; part 12; part 13; part 14])].

(** A flat document. *)
Definition flat_job : dict :=
  [("_id", VObjectId "j1"); ("no", VStr "J-001"); ("priority", VInt 2);
   ("isReview", VBool false); ("pauseTime", VNone)].

End Fixture.


(** * Further code of [Getdata.py] *)

(** ** Shapes of values *)

(** [isinstance(value, list) and len(value) > 0 and
    isinstance(value[0], dict)] *)
Definition is_dict_list (v : bson) : bool :=
  match v with
  | VList (VDict _ :: _) => true
  | _ => false
  end.

(** A dictionary whose values are all scalars. *)
Definition flat_dict (r : dict) : Prop :=
  Forall (fun kv => is_scalar (snd kv) = true) r.

(** Flattening [v] into a dictionary with property [P] gives a dictionary
    with property [P]. *)
Definition keeps (P : dict -> Prop) (v : bson) : Prop :=
  forall prefix r, P r -> P (flatten_nested_document v prefix (Some r)).

(** [k] is [p] followed by an underscore and something. *)
Definition below (p k : string) : Prop :=
  exists s, k = (p ++ "_" ++ s)%string.

(** ** [simplify_object] *)

Section Simplify.

(** [str] of a dictionary or of a list is Python's [repr] of it, which is
    left open. *)
Variable repr : bson -> string.

(** [str(value)] *)
Definition py_str (value : bson) : string :=
  match value with
  | VNone => "None"
  | VBool true => "True"
  | VBool false => "False"
  | VInt z => NilZero.string_of_int (Z.to_int z)
  | VStr s => s
  | VObjectId oid => oid
  | _ => repr value
  end.

(** One iteration of the loop over [obj.items()] (lines 179-188). *)
Definition simplify_field (simplified : dict) (item : string * bson) : dict :=
  let '(key, value) := item in
  if String.eqb key "_id" then dict_set key (VStr (py_str value)) simplified
  else
    match value with
    | VDict d =>
        dict_set key (VStr ("Object: " ++ String.concat ", " (keys d))) simplified
    | VList ((VDict _ :: _) as l) =>
        dict_set key
          (VStr ("Array of " ++ Str.of_nat (List.length l) ++ " objects")) simplified
    | _ => dict_set key value simplified
    end.

Definition simplify_object (obj : bson) : bson :=
  match obj with
  | VDict d => VDict (fold_left simplify_field d [])
  | _ => obj
  end.

(** The value [simplify_object] stores under [key] for [value]. *)
Definition simplified_value (key : string) (value : bson) : bson :=
  if String.eqb key "_id" then VStr (py_str value)
  else
    match value with
    | VDict d => VStr ("Object: " ++ String.concat ", " (keys d))
    | VList ((VDict _ :: _) as l) =>
        VStr ("Array of " ++ Str.of_nat (List.length l) ++ " objects")
    | _ => value
    end.

End Simplify.

(** ** The export of [main] *)

(** Lines 216 and 271:
    [[flatten_nested_document(job) for job in get_flattened_job_data(db, limit)]] *)
Definition export_rows {U : CaseTables} (db : Accessor) (limit : Z) : list dict :=
  map (fun job => flatten_nested_document (VDict job) "" None)
      (get_flattened_job_data db limit).

(** ** Notions used to state the further properties of the resolver *)

(** The number of fetches among the calls [t]. *)
Definition fetches (t : list call) : nat := List.length (filter is_fetch t).

(** A fetch goes to a collection of [names]; a point lookup is made with an
    [ObjectId]. *)
Definition well_targeted (names : list string) (c : call) : Prop :=
  match c with
  | CFind coll _ => mem coll names = true
  | CFindOne coll id => mem coll names = true /\ exists oid, id = VObjectId oid
  | _ => True
  end.

(** [job'] is [job] with fields assigned: the keys of [job] come first, in
    their order, and the keys after them are names derived from reference
    fields of [job]. *)
Definition extends {U : CaseTables} (job job' : dict) : Prop :=
  exists extra,
    keys job' = keys job ++ extra
    /\ Forall (fun n => exists it, In it job /\ not_reference_key (fst it) = false
                                   /\ n = attach_name (fst it)) extra.

(** No operation of the accessor raises. *)
Definition never_raises (db : Accessor) : Prop :=
  (forall limit, exists jobs, aggregate db limit = inr jobs)
  /\ (exists names, list_collection_names db = inr names)
  /\ (forall coll ids, exists docs, find db coll ids = inr docs)
  /\ (forall coll id, exists d, find_one db coll id = inr d).

(** No field of the document is named exactly [ID] or [IDs]. *)
Definition no_bare_suffix (d : dict) : Prop :=
  ~ In "ID" (keys d) /\ ~ In "IDs" (keys d).

(** ** The console summary of [main] *)

(** The field names [main] does not report as relations (lines 234-237). *)
Definition summary_fields : list string :=
  ["_id"; "no"; "status"; "createdAt"; "updatedAt"; "type"; "priority";
   "appointmentTime"; "isManualFindTechnician"; "isSendRequest"; "isEditable";
   "isQcJob"; "isReview"; "isSlaInRisk"; "isSlaInFail"; "pauseTime"; "numOfHourSla";
   "customerContact"].

(** The loop of lines 232-238 over [job.keys()]. *)
Definition level1_relations (job : dict) : list string :=
  filter
    (fun key =>
       negb (mem key summary_fields)
       && negb (Str.endswith key "ID") && negb (Str.endswith key "IDs"))
    (keys job).

(** The loop of lines 257-260 over [rel_obj.items()], which [main] runs on
    the value of a level-1 relation that is a dictionary (see
    [level2_summary]). *)
Definition level2_rels (rel_obj : dict) : list string :=
  map fst
    (filter
       (fun '(k, v) =>
          negb (Str.endswith k "ID") && negb (Str.endswith k "IDs")
          && (is_dict v || is_dict_list v))
       rel_obj).

(** The loop of lines 252-263 over [level1_relations]: for each relation
    [rel] for which [job.get(rel)] is a dictionary in which [level2_rels] is
    not empty, the line that is printed, as the pair of [rel] and
    [level2_rels]. *)
Definition level2_summary (job : dict) : list (string * list string) :=
  flat_map
    (fun rel =>
       match dict_get rel job with
       | Some (VDict rel_obj) =>
           match level2_rels rel_obj with
           | [] => []
           | rels => [(rel, rels)]
           end
       | _ => []
       end)
    (level1_relations job).

(** [level2_count] when the loop ends (line 263); [main] prints that no
    level-2 relationship was found when it is 0. *)
Definition level2_count (job : dict) : nat :=
  list_sum (map (fun line => List.length (snd line)) (level2_summary job)).

(** What the loop of lines 219-266 reports: for each of the first three jobs
    ([if i >= 3: break]) the level-1 relations and the level-2 lines. *)
Definition main_summary (flattened_jobs : list dict)
  : list (list string * list (string * list string)) :=
  map (fun job => (level1_relations job, level2_summary job)) (firstn 3 flattened_jobs).

(** ** One more scenario *)

(** The location referred to by the job of the scenario has a field named
    [ID]. *)
Definition location_with_ID : dict :=
  [("_id", VObjectId "loc1"); ("ID", VStr "L-1")].

Definition stray_db : Accessor :=
  Fixture.memory_db [Fixture.job_j1] [("JobLocation", [location_with_ID])].

(** ** Names outside ASCII *)

(** The UTF-8 encodings of U+00C9 and U+00E9, the upper-case and the
    lower-case E with an acute accent. *)
Definition E_acute : string :=
  String (ascii_of_nat 195) (String (ascii_of_nat 137) EmptyString).

Definition e_acute : string :=
  String (ascii_of_nat 195) (String (ascii_of_nat 169) EmptyString).

(** Tables that know this pair besides the ASCII letters. *)
Fixpoint latin_lower (s : string) : string :=
  match s with
  | EmptyString => EmptyString
  | String a r =>
      match r with
      | String b r' =>
          if Ascii.eqb a (ascii_of_nat 195) && Ascii.eqb b (ascii_of_nat 137)
          then String a (String (ascii_of_nat 169) (latin_lower r'))
          else String (Str.ascii_lower_char a) (latin_lower r)
      | EmptyString => String (Str.ascii_lower_char a) EmptyString
      end
  end.

Fixpoint latin_upper (s : string) : string :=
  match s with
  | EmptyString => EmptyString
  | String a r =>
      match r with
      | String b r' =>
          if Ascii.eqb a (ascii_of_nat 195) && Ascii.eqb b (ascii_of_nat 169)
          then String a (String (ascii_of_nat 137) (latin_upper r'))
          else String (Str.ascii_upper_char a) (latin_upper r)
      | EmptyString => String (Str.ascii_upper_char a) EmptyString
      end
  end.

Definition latin_tables : CaseTables :=
  {| str_lower := latin_lower; str_upper := latin_upper |}.

(** A job referring to a document of the collection whose name starts with
    the upper-case letter, through a field whose base name starts with the
    upper-case letter, and one through a field whose base name starts with
    the lower-case letter. *)
Definition school_s1 : dict := [("_id", VObjectId "s1"); ("name", VStr "Lycee")].

Definition job_j6 : dict :=
  [("_id", VObjectId "j6"); ((E_acute ++ "coleID")%string, VObjectId "s1")].

Definition job_j7 : dict :=
  [("_id", VObjectId "j7"); ((e_acute ++ "coleID")%string, VObjectId "s1")].

Definition school_db : Accessor :=
  Fixture.memory_db [job_j6; job_j7] [((E_acute ++ "cole")%string, [school_s1])].
(** * Properties *)

(** ** Facts about strings *)

Module StrFacts.
Import Str.

Lemma app_assoc (a b c : string) : ((a ++ b) ++ c = a ++ (b ++ c))%string.
Proof. induction a as [|x a IH]; simpl; [reflexivity | now rewrite IH]. Qed.

Lemma app_empty_r (a : string) : (a ++ "")%string = a.
Proof. induction a as [|x a IH]; simpl; [reflexivity | now rewrite IH]. Qed.

Lemma length_app (a b : string) :
  String.length (a ++ b) = String.length a + String.length b.
Proof. induction a as [|x a IH]; simpl; [reflexivity | now rewrite IH]. Qed.

Lemma app_inv_head (a b c : string) : (a ++ b = a ++ c)%string -> b = c.
Proof.
  induction a as [|x a IH]; simpl; intros H; [assumption|].
  injection H as H. now apply IH.
Qed.

Lemma take_app (p s : string) : take (String.length p) (p ++ s) = p.
Proof. induction p as [|x p IH]; simpl; [now destruct s | now rewrite IH]. Qed.

Lemma drop_app (p s : string) : drop (String.length p) (p ++ s) = s.
Proof. induction p as [|x p IH]; simpl; [now destruct s | assumption]. Qed.

Lemma take_drop (n : nat) (s : string) : (take n s ++ drop n s)%string = s.
Proof.
  revert s; induction n as [|n IH]; intros [|x s]; simpl; try reflexivity.
  now rewrite IH.
Qed.

Lemma drop_last_app (p suffix : string) :
  drop_last (String.length suffix) (p ++ suffix) = p.
Proof.
  unfold drop_last. rewrite length_app.
  replace (String.length p + String.length suffix - String.length suffix)
    with (String.length p) by lia.
  apply take_app.
Qed.

Lemma endswith_app (p suffix : string) : endswith (p ++ suffix) suffix = true.
Proof.
  unfold endswith. rewrite length_app.
  replace (String.length p + String.length suffix - String.length suffix)
    with (String.length p) by lia.
  rewrite drop_app, String.eqb_refl, andb_true_r.
  apply Nat.leb_le. lia.
Qed.

Lemma endswith_inv (s suffix : string) :
  endswith s suffix = true ->
  s = (drop_last (String.length suffix) s ++ suffix)%string.
Proof.
  unfold endswith, drop_last. intros H.
  apply andb_true_iff in H as [_ H]. apply String.eqb_eq in H.
  remember (String.length s - String.length suffix) as n.
  rewrite <- H. symmetry. apply take_drop.
Qed.

Lemma has_char_app (c : ascii) (a b : string) :
  has_char c (a ++ b) = has_char c a || has_char c b.
Proof.
  induction a as [|x a IH]; simpl; [reflexivity|].
  now rewrite IH, orb_assoc.
Qed.

Lemma ascii_lower_char_not_D (x : ascii) : Ascii.eqb (ascii_lower_char x) "D" = false.
Proof. destruct x as [[] [] [] [] [] [] [] []]; reflexivity. Qed.

Lemma ascii_lower_no_D (s : string) : has_char "D" (ascii_lower s) = false.
Proof.
  induction s as [|x s IH]; simpl; [reflexivity|].
  now rewrite ascii_lower_char_not_D, IH.
Qed.

(** A name without the letter [D] ends neither in [ID] nor in [IDs]. *)
Lemma no_D_endswith (s : string) :
  has_char "D" s = false -> endswith s "ID" = false /\ endswith s "IDs" = false.
Proof.
  intros H; split.
  - destruct (endswith s "ID") eqn:E; [|reflexivity].
    apply endswith_inv in E. rewrite E, has_char_app in H.
    simpl in H. now rewrite orb_true_r in H.
  - destruct (endswith s "IDs") eqn:E; [|reflexivity].
    apply endswith_inv in E. rewrite E, has_char_app in H.
    simpl in H. now rewrite orb_true_r in H.
Qed.

Lemma ascii_lower_app (a b : string) :
  ascii_lower (a ++ b) = (ascii_lower a ++ ascii_lower b)%string.
Proof. induction a as [|x a IH]; simpl; [reflexivity | now rewrite IH]. Qed.

End StrFacts.

(** The ASCII tables have the two properties asked of the tables. *)
Lemma ascii_tables_no_D : lower_has_no_D ascii_tables.
Proof. intros s. apply StrFacts.ascii_lower_no_D. Qed.

Lemma ascii_tables_agree : agrees_on_ascii ascii_tables.
Proof. split; intros; reflexivity. Qed.

(** ** Facts about dictionaries *)

Lemma dict_get_set_same (k : string) (v : bson) (d : dict) :
  dict_get k (dict_set k v d) = Some v.
Proof.
  induction d as [|[k' v'] d IH]; simpl.
  - now rewrite String.eqb_refl.
  - destruct (String.eqb k' k) eqn:E; simpl; rewrite ?String.eqb_refl, ?E; auto.
Qed.

Lemma dict_get_set_other (k k' : string) (v : bson) (d : dict) :
  k' <> k -> dict_get k' (dict_set k v d) = dict_get k' d.
Proof.
  intros N. induction d as [|[k0 v0] d IH]; simpl.
  - apply String.eqb_neq in N. now rewrite String.eqb_sym, N.
  - destruct (String.eqb k0 k) eqn:E; simpl.
    + apply String.eqb_eq in E; subst k0.
      apply String.eqb_neq in N. now rewrite String.eqb_sym, N.
    + now rewrite IH.
Qed.

Lemma dict_get_None (k : string) (d : dict) :
  dict_get k d = None <-> ~ In k (keys d).
Proof.
  induction d as [|[k' v'] d IH]; simpl; [tauto|].
  destruct (String.eqb k' k) eqn:E.
  - apply String.eqb_eq in E. split; [discriminate | intros N; exfalso; auto].
  - apply String.eqb_neq in E. rewrite IH. tauto.
Qed.

Lemma dict_get_In (k : string) (v : bson) (d : dict) :
  dict_get k d = Some v -> In (k, v) d.
Proof.
  induction d as [|[k' v'] d IH]; simpl; [discriminate|].
  destruct (String.eqb k' k) eqn:E; [|auto].
  apply String.eqb_eq in E. intros [= ->]. left. now subst.
Qed.

(** Assigning to a key that is absent appends the field. *)
Lemma dict_set_new (k : string) (v : bson) (d : dict) :
  ~ In k (keys d) -> dict_set k v d = d ++ [(k, v)].
Proof.
  induction d as [|[k' v'] d IH]; simpl; intros N; [reflexivity|].
  destruct (String.eqb k' k) eqn:E.
  - apply String.eqb_eq in E. exfalso; auto.
  - rewrite IH; auto.
Qed.

(** Assigning to a key that is present keeps the keys as they are. *)
Lemma dict_set_keys_present (k : string) (v : bson) (d : dict) :
  In k (keys d) -> keys (dict_set k v d) = keys d.
Proof.
  induction d as [|[k' v'] d IH]; simpl; intros H; [contradiction|].
  destruct (String.eqb k' k) eqn:E; simpl.
  - apply String.eqb_eq in E. now subst.
  - apply String.eqb_neq in E. destruct H as [H|H]; [contradiction|].
    now rewrite IH.
Qed.

Lemma dict_set_In (k k' : string) (v v' : bson) (d : dict) :
  In (k', v') (dict_set k v d) -> (k', v') = (k, v) \/ In (k', v') d.
Proof.
  induction d as [|[k0 v0] d IH]; simpl.
  - intros [H|[]]; auto.
  - destruct (String.eqb k0 k); simpl; intros [H|H]; auto.
    destruct (IH H); auto.
Qed.

(** ** Facts about the monad *)

Lemma bind_inr {A B : Type} (m : M A) (f : A -> M B) (b : B) :
  outcome (bind m f) = inr b ->
  exists a, outcome m = inr a /\ outcome (f a) = inr b.
Proof.
  destruct m as [t [e|a]]; cbn; [discriminate|].
  destruct (f a) as [t' r] eqn:E; cbn. intros ->.
  exists a. now rewrite E.
Qed.

Lemma bind_inl {A B : Type} (m : M A) (f : A -> M B) (e : exn) :
  outcome m = inl e -> outcome (bind m f) = inl e.
Proof. destruct m as [t [e'|a]]; cbn; [now intros [= ->] | discriminate]. Qed.

Lemma bind_ok {A B : Type} (t : list call) (a : A) (f : A -> M B) :
  bind (t, inr a) f = (t ++ trace (f a), outcome (f a)).
Proof. cbn. now destruct (f a). Qed.

Lemma bind_ret_l {A B : Type} (a : A) (f : A -> M B) : bind (ret a) f = f a.
Proof. unfold ret. rewrite bind_ok. now destruct (f a). Qed.

Lemma foldM_app {A S : Type} (body : S -> A -> M S) (l1 l2 : list A) (s : S) :
  foldM body (l1 ++ l2) s = bind (foldM body l1 s) (foldM body l2).
Proof.
  revert s; induction l1 as [|a l1 IH]; intros s.
  - symmetry. apply bind_ret_l.
  - cbn [foldM app]. destruct (body s a) as [t [e|s']]; cbn; [reflexivity|].
    rewrite IH. destruct (foldM body l1 s') as [t1 [e|s1]]; cbn.
    + reflexivity.
    + destruct (foldM body l2 s1); cbn. now rewrite app_assoc.
Qed.

Lemma sound_ret {A : Type} (db : Accessor) (a : A) : sound db (ret a).
Proof. intros c []. Qed.

Lemma sound_raise {A : Type} (db : Accessor) (e : exn) : sound db (@raise A e).
Proof. intros c []. Qed.

Lemma sound_bind {A B : Type} (db : Accessor) (m : M A) (f : A -> M B) :
  sound db m -> (forall a, sound db (f a)) -> sound db (bind m f).
Proof.
  intros Hm Hf c. destruct m as [t [e|a]]; cbn.
  - intros Hin Hr. eexists. reflexivity.
  - destruct (f a) as [t' r] eqn:E; cbn. intros Hin Hr.
    apply in_app_or in Hin as [Hin|Hin].
    + destruct (Hm c Hin Hr) as [e He]. discriminate.
    + specialize (Hf a c). rewrite E in Hf. exact (Hf Hin Hr).
Qed.

Lemma sound_foldM {A S : Type} (db : Accessor) (body : S -> A -> M S) (l : list A) :
  (forall s a, sound db (body s a)) -> forall s, sound db (foldM body l s).
Proof.
  intros Hb. induction l as [|a l IH]; intros s; simpl.
  - apply sound_ret.
  - apply sound_bind; auto.
Qed.

Lemma sound_mapM {A B : Type} (db : Accessor) (body : A -> M B) (l : list A) :
  (forall a, sound db (body a)) -> sound db (mapM body l).
Proof.
  intros Hb. induction l as [|a l IH]; simpl.
  - apply sound_ret.
  - apply sound_bind; auto. intros b. apply sound_bind; auto.
    intros bs. apply sound_ret.
Qed.

#[local] Ltac one_call :=
  let c := fresh "c" in
  intros c [<-|[]]; cbn; intros [e ->]; eauto.

Lemma sound_do_aggregate (db : Accessor) (limit : Z) : sound db (do_aggregate db limit).
Proof. one_call. Qed.

Lemma sound_do_list_collection_names (db : Accessor) :
  sound db (do_list_collection_names db).
Proof. one_call. Qed.

Lemma sound_do_find (db : Accessor) (coll : string) (ids : list bson) :
  sound db (do_find db coll ids).
Proof. one_call. Qed.

Lemma sound_do_find_one (db : Accessor) (coll : string) (id : bson) :
  sound db (do_find_one db coll id).
Proof. one_call. Qed.

(** ** Facts about reference keys *)

Section KeyFacts.

Context {U : CaseTables}.
Import Str StrFacts.

Lemma app_inv_last (a b : string) (x y : ascii) :
  (a ++ String x "" = b ++ String y "")%string -> a = b /\ x = y.
Proof.
  revert b; induction a as [|c a IH]; intros [|d b]; simpl; intros H.
  - injection H as ->. auto.
  - injection H as -> H. now destruct b.
  - injection H as -> H. now destruct a.
  - injection H as -> H. destruct (IH _ H) as [-> ->]. auto.
Qed.

Lemma endswith_ID_not_IDs (base : string) : endswith (base ++ "ID") "IDs" = false.
Proof.
  destruct (endswith (base ++ "ID") "IDs") eqn:E; [|reflexivity].
  apply endswith_inv in E. revert E.
  generalize (drop_last (String.length "IDs") (base ++ "ID")). intros p E.
  change (base ++ "ID")%string with (base ++ ("I" ++ "D"))%string in E.
  change (p ++ "IDs")%string with (p ++ ("ID" ++ "s"))%string in E.
  rewrite <- !app_assoc in E. apply app_inv_last in E as [_ E]. discriminate.
Qed.

Lemma split_key_ID (base : string) : split_key (base ++ "ID") = (base, false).
Proof.
  unfold split_key. rewrite endswith_ID_not_IDs.
  pose proof (drop_last_app base "ID") as H. cbn [String.length] in H.
  now rewrite H.
Qed.

Lemma split_key_IDs (base : string) : split_key (base ++ "IDs") = (base, true).
Proof.
  unfold split_key. rewrite endswith_app.
  pose proof (drop_last_app base "IDs") as H. cbn [String.length] in H.
  now rewrite H.
Qed.

Lemma not_reference_key_ID (base : string) : not_reference_key (base ++ "ID") = false.
Proof.
  unfold not_reference_key. rewrite endswith_app.
  destruct (String.eqb_spec (base ++ "ID") "_id") as [E|N]; [|reflexivity].
  apply (f_equal (has_char "D")) in E. rewrite has_char_app in E.
  simpl in E. rewrite orb_true_r in E. discriminate.
Qed.

Lemma not_reference_key_IDs (base : string) : not_reference_key (base ++ "IDs") = false.
Proof.
  unfold not_reference_key. rewrite (endswith_app base "IDs").
  simpl. apply andb_false_r.
Qed.

(** A key the loop does not pass over is a base name followed by [ID] or
    by [IDs]. *)
Lemma reference_key_inv (key : string) :
  not_reference_key key = false ->
  exists base, (key = (base ++ "ID")%string \/ key = (base ++ "IDs")%string).
Proof.
  unfold not_reference_key. intros H.
  destruct (endswith key "IDs") eqn:E3.
  - apply endswith_inv in E3. eexists; right; exact E3.
  - destruct (endswith key "ID") eqn:E2.
    + apply endswith_inv in E2. eexists; left; exact E2.
    + discriminate.
Qed.

Lemma attach_name_ID (base : string) : attach_name (base ++ "ID") = str_lower base.
Proof. unfold attach_name. now rewrite split_key_ID. Qed.

Lemma attach_name_IDs (base : string) :
  attach_name (base ++ "IDs") = (str_lower base ++ "s")%string.
Proof. unfold attach_name. now rewrite split_key_IDs. Qed.

(** The name of an attached field never follows the reference convention:
    lower-casing leaves no [D] in it. *)
Lemma attach_name_not_reference (key : string) :
  lower_has_no_D U -> not_reference_key (attach_name key) = true.
Proof.
  intros HU.
  assert (D : has_char "D" (attach_name key) = false).
  { unfold attach_name. destruct (split_key key) as [b [|]].
    - rewrite has_char_app, HU. reflexivity.
    - apply HU. }
  destruct (no_D_endswith _ D) as [E2 E3].
  unfold not_reference_key. now rewrite E2, E3.
Qed.

Lemma collection_name_of_nonempty (base : string) :
  base <> EmptyString -> collection_name_of base = ret (capitalize base).
Proof. destruct base; [congruence | reflexivity]. Qed.

End KeyFacts.

(** ** One iteration of the resolver loops *)

Section Steps.

Context {U : CaseTables}.
Import Str StrFacts.

Variable db : Accessor.
Variable names : list string.
Hypothesis listing : list_collection_names db = inr names.

#[local] Ltac enter key_fact split_fact :=
  unfold level1_field, level2_field;
  rewrite ?key_fact, ?split_fact;
  rewrite ?collection_name_of_nonempty by assumption;
  rewrite ?bind_ret_l;
  unfold do_list_collection_names, do_find, do_find_one;
  rewrite listing; rewrite bind_ok; cbn [trace outcome fst snd].

(** A reference key without a base name raises before any call. *)
Lemma level1_field_no_base (job : dict) (value : bson) :
  level1_field db job ("ID", value) = ([], inl IndexError)
  /\ level1_field db job ("IDs", value) = ([], inl IndexError).
Proof. split; reflexivity. Qed.

Lemma level2_field_no_base (level1_doc : dict) (value : bson) :
  level2_field db level1_doc ("ID", value) = ([], inl IndexError)
  /\ level2_field db level1_doc ("IDs", value) = ([], inl IndexError).
Proof. split; reflexivity. Qed.

Variable base : string.
Hypothesis base_nonempty : base <> EmptyString.

(** The collection is unknown: the field is passed over. *)
Lemma level1_field_unknown_collection (job : dict) (key : string) (value : bson) :
  key = (base ++ "ID")%string \/ key = (base ++ "IDs")%string ->
  mem (capitalize base) names = false ->
  level1_field db job (key, value) = ([CListCollectionNames], inr job).
Proof.
  intros [-> | ->] Hmem.
  - enter not_reference_key_ID split_key_ID. now rewrite Hmem.
  - enter not_reference_key_IDs split_key_IDs. now rewrite Hmem.
Qed.

Lemma level2_field_unknown_collection
    (level1_doc : dict) (key : string) (value : bson) :
  key = (base ++ "ID")%string \/ key = (base ++ "IDs")%string ->
  mem (capitalize base) names = false ->
  level2_field db level1_doc (key, value) = ([CListCollectionNames], inr level1_doc).
Proof.
  intros [-> | ->] Hmem.
  - enter not_reference_key_ID split_key_ID. now rewrite Hmem.
  - enter not_reference_key_IDs split_key_IDs. now rewrite Hmem.
Qed.

Hypothesis known : mem (capitalize base) names = true.

Lemma level1_field_multi (job : dict) (ids : list bson) :
  level1_field db job ((base ++ "IDs")%string, VList ids)
  = ([CListCollectionNames; CFind (capitalize base) ids],
     match find db (capitalize base) ids with
     | inl e => inl e
     | inr docs =>
         inr (dict_set (str_lower base ++ "s")%string (VList (map VDict docs)) job)
     end).
Proof.
  enter not_reference_key_IDs split_key_IDs. rewrite known. cbn.
  now destruct (find db (capitalize base) ids).
Qed.

Lemma level2_field_multi (level1_doc : dict) (ids : list bson) :
  level2_field db level1_doc ((base ++ "IDs")%string, VList ids)
  = ([CListCollectionNames; CFind (capitalize base) ids],
     match find db (capitalize base) ids with
     | inl e => inl e
     | inr docs =>
         inr (dict_set (str_lower base ++ "s")%string (VList (map VDict docs)) level1_doc)
     end).
Proof.
  enter not_reference_key_IDs split_key_IDs. rewrite known. cbn.
  now destruct (find db (capitalize base) ids).
Qed.

Lemma level2_field_single (level1_doc : dict) (oid : string) :
  level2_field db level1_doc ((base ++ "ID")%string, VObjectId oid)
  = ([CListCollectionNames; CFindOne (capitalize base) (VObjectId oid)],
     match find_one db (capitalize base) (VObjectId oid) with
     | inl e => inl e
     | inr (Some (f :: d)) => inr (dict_set (str_lower base) (VDict (f :: d)) level1_doc)
     | inr _ => inr level1_doc
     end).
Proof.
  enter not_reference_key_ID split_key_ID. rewrite known. cbn.
  now destruct (find_one db (capitalize base) (VObjectId oid)) as [e|[[|f d]|]].
Qed.

Lemma level1_field_single (job : dict) (oid : string) :
  level1_field db job ((base ++ "ID")%string, VObjectId oid)
  = match find_one db (capitalize base) (VObjectId oid) with
    | inl e =>
        ([CListCollectionNames; CFindOne (capitalize base) (VObjectId oid)], inl e)
    | inr (Some (f :: d)) =>
        (CListCollectionNames :: CFindOne (capitalize base) (VObjectId oid)
           :: trace (resolve_level2 db (f :: d)),
         match outcome (resolve_level2 db (f :: d)) with
         | inl e => inl e
         | inr d' => inr (dict_set (str_lower base) (VDict d') job)
         end)
    | inr _ =>
        ([CListCollectionNames; CFindOne (capitalize base) (VObjectId oid)], inr job)
    end.
Proof.
  enter not_reference_key_ID split_key_ID. rewrite known. cbn.
  destruct (find_one db (capitalize base) (VObjectId oid)) as [e|[[|f d]|]];
    try reflexivity.
  generalize (resolve_level2 db (f :: d)).
  intros [t [e|d']]; cbn; rewrite ?app_nil_r; reflexivity.
Qed.

(** A value of the wrong type: one listing of the collection names, no
    fetch, and the document as it was. *)
Lemma level1_field_malformed (job : dict) (key : string) (value : bson) :
  (key = (base ++ "ID")%string /\ (forall oid, value <> VObjectId oid))
  \/ (key = (base ++ "IDs")%string /\ is_list value = false) ->
  level1_field db job (key, value) = ([CListCollectionNames], inr job).
Proof.
  intros [[-> H] | [-> H]].
  - enter not_reference_key_ID split_key_ID. rewrite known. cbn.
    destruct value; try reflexivity. now destruct (H oid).
  - enter not_reference_key_IDs split_key_IDs. rewrite known. cbn.
    destruct value; try reflexivity. discriminate.
Qed.

Lemma level2_field_malformed (level1_doc : dict) (key : string) (value : bson) :
  (key = (base ++ "ID")%string /\ (forall oid, value <> VObjectId oid))
  \/ (key = (base ++ "IDs")%string /\ is_list value = false) ->
  level2_field db level1_doc (key, value) = ([CListCollectionNames], inr level1_doc).
Proof.
  intros [[-> H] | [-> H]].
  - enter not_reference_key_ID split_key_ID. rewrite known. cbn.
    destruct value; try reflexivity. now destruct (H oid).
  - enter not_reference_key_IDs split_key_IDs. rewrite known. cbn.
    destruct value; try reflexivity. discriminate.
Qed.

End Steps.

(** ** What one iteration can do to the document *)

Section Effects.

Context {U : CaseTables}.

Variable db : Accessor.

#[local] Ltac open_step key value :=
  unfold level1_field, level2_field, attach_name;
  destruct (not_reference_key key); [cbn; intros [= <-]; auto|];
  destruct (split_key key) as [b [|]];
  (destruct b as [|c r]; [cbn; discriminate|]);
  change (collection_name_of (String c r)) with (ret (capitalize (String c r)));
  rewrite bind_ret_l;
  unfold do_list_collection_names, do_find, do_find_one;
  (destruct (list_collection_names db) as [e|names]; [cbn; discriminate|]);
  rewrite bind_ok; cbn [trace outcome fst snd];
  (destruct (mem _ names); cbn [negb]; [|cbn; intros [= <-]; auto]);
  destruct value; try (cbn; intros [= <-]; auto; fail).

Lemma level2_field_effect (d d' : dict) (item : string * bson) :
  outcome (level2_field db d item) = inr d' ->
  d' = d
  \/ exists x, attached_verbatim db x /\ d' = dict_set (attach_name (fst item)) x d.
Proof.
  destruct item as [key value]. cbn [fst]. open_step key value.
  - destruct (find db (capitalize (String c r)) l) as [e|docs] eqn:F;
      cbn; [discriminate|].
    intros [= <-]. right. eexists; split; [|reflexivity].
    right. exists docs. split; [reflexivity|]. now exists (capitalize (String c r)), l.
  - destruct (find_one db (capitalize (String c r)) (VObjectId oid))
      as [e|[[|f d2]|]] eqn:F; cbn; try discriminate; try (intros [= <-]; auto; fail).
    intros [= <-]. right. eexists; split; [|reflexivity].
    left. exists (f :: d2). split; [reflexivity|].
    now exists (capitalize (String c r)), (VObjectId oid).
Qed.

Lemma level1_field_effect (job job' : dict) (item : string * bson) :
  outcome (level1_field db job item) = inr job' ->
  job' = job
  \/ exists x, attached_level1 db x /\ job' = dict_set (attach_name (fst item)) x job.
Proof.
  destruct item as [key value]. cbn [fst]. open_step key value.
  - destruct (find db (capitalize (String c r)) l) as [e|docs] eqn:F;
      cbn; [discriminate|].
    intros [= <-]. right. eexists; split; [|reflexivity].
    left. exists docs. split; [reflexivity|]. now exists (capitalize (String c r)), l.
  - destruct (find_one db (capitalize (String c r)) (VObjectId oid))
      as [e|[[|f d1]|]] eqn:F; rewrite ?bind_ok; cbn [truthy trace outcome fst snd];
      try discriminate; try (intros [= <-]; auto; fail).
    intros H. apply bind_inr in H as (d1' & H2 & H). cbn in H. injection H as <-.
    right. eexists; split; [|reflexivity].
    right. exists (f :: d1), d1'. split; [reflexivity|]. split.
    + now exists (capitalize (String c r)), (VObjectId oid).
    + intros k2 v2 Hin. revert H2 k2 v2 Hin. unfold resolve_level2.
      generalize (f :: d1) at 2 3. generalize (f :: d1).
      intros items. induction items as [|it items IH]; intros s.
      * cbn. intros [= <-]. auto.
      * cbn [foldM]. intros H. apply bind_inr in H as (s1 & H1 & H).
        intros k2 v2 Hin. destruct (IH _ H _ _ Hin) as [Hin1|]; [|auto].
        apply level2_field_effect in H1 as [->|(x & Hx & ->)]; [auto|].
        apply dict_set_In in Hin1 as [[= -> ->]|]; auto.
Qed.

(** Every field of a resolved job is a field of the root document or was
    attached by the outer loop. *)
Lemma resolve_job_fields (job job' : dict) :
  outcome (resolve_job db job) = inr job' ->
  forall k v, In (k, v) job' -> In (k, v) job \/ attached_level1 db v.
Proof.
  unfold resolve_job. generalize job at 2 3. generalize job.
  intros items. induction items as [|it items IH]; intros s.
  - cbn. intros [= <-]. auto.
  - cbn [foldM]. intros H. apply bind_inr in H as (s1 & H1 & H).
    intros k v Hin. destruct (IH _ H _ _ Hin) as [Hin1|]; [|auto].
    apply level1_field_effect in H1 as [->|(x & Hx & ->)]; [auto|].
    apply dict_set_In in Hin1 as [[= -> ->]|]; auto.
Qed.

(** Fields that do not follow the reference convention cost nothing. *)
Lemma foldM_level1_skip (items : list (string * bson)) (s : dict) :
  Forall (fun it => not_reference_key (fst it) = true) items ->
  foldM (level1_field db) items s = ret s.
Proof.
  induction 1 as [|[k v] items Hk _ IH]; [reflexivity|].
  cbn [foldM fst] in *. unfold level1_field at 1. rewrite Hk, bind_ret_l. exact IH.
Qed.

Lemma foldM_level2_skip (items : list (string * bson)) (s : dict) :
  Forall (fun it => not_reference_key (fst it) = true) items ->
  foldM (level2_field db) items s = ret s.
Proof.
  induction 1 as [|[k v] items Hk _ IH]; [reflexivity|].
  cbn [foldM fst] in *. unfold level2_field at 1. rewrite Hk, bind_ret_l. exact IH.
Qed.

Lemma mapM_inr_In {A B : Type} (body : A -> M B) (l : list A) (bs : list B) (b : B) :
  outcome (mapM body l) = inr bs -> In b bs ->
  exists a, In a l /\ outcome (body a) = inr b.
Proof.
  revert bs. induction l as [|a l IH]; intros bs.
  - cbn. intros [= <-] [].
  - cbn [mapM]. intros H. apply bind_inr in H as (b0 & H0 & H).
    apply bind_inr in H as (bs0 & Hbs & H). cbn in H. injection H as <-.
    intros [<-|Hin].
    + exists a. split; [now left | assumption].
    + destruct (IH _ Hbs Hin) as (a' & Ha & Hb). exists a'. split; [now right | assumption].
Qed.

(** *** Every call that raises ends the computation *)

#[local] Ltac prove_sound :=
  repeat first
    [ apply sound_ret | apply sound_raise
    | apply sound_do_list_collection_names | apply sound_do_find
    | apply sound_do_find_one | apply sound_do_aggregate
    | apply sound_bind; [|intros ?]
    | match goal with
      | |- sound _ (match ?x with _ => _ end) => destruct x
      | |- sound _ (if ?x then _ else _) => destruct x
      | |- sound _ (let '(_, _) := ?x in _) => destruct x
      end ].

Lemma sound_level2_field (d : dict) (item : string * bson) :
  sound db (level2_field db d item).
Proof.
  destruct item as [key value]. unfold level2_field, collection_name_of. prove_sound.
Qed.

Lemma sound_resolve_level2 (d : dict) : sound db (resolve_level2 db d).
Proof. apply sound_foldM. intros; apply sound_level2_field. Qed.

Lemma sound_level1_field (job : dict) (item : string * bson) :
  sound db (level1_field db job item).
Proof.
  destruct item as [key value]. unfold level1_field, collection_name_of.
  prove_sound. apply sound_resolve_level2.
Qed.

Lemma sound_resolve_jobs (limit : Z) : sound db (resolve_jobs db limit).
Proof.
  unfold resolve_jobs. apply sound_bind; [apply sound_do_aggregate|].
  intros jobs. apply sound_mapM. intros job.
  apply sound_foldM. intros; apply sound_level1_field.
Qed.

End Effects.

(** ** Facts about the flattener *)

Section FlattenFacts.
Import Str StrFacts.

(** The body of [flatten_nested_document] on a dictionary is the loop of
    [flatten_field] over its items. *)
Lemma flatten_dict_eq (d : dict) (prefix : string) (result : option dict) :
  flatten_nested_document (VDict d) prefix result
  = fold_left (flatten_field prefix) d (or_empty result).
Proof.
  cbn [flatten_nested_document].
  generalize (or_empty result) as r.
  induction d as [|[k v] d IH]; intros r; [reflexivity|].
  cbn [fold_left]. rewrite <- IH. clear IH.
  destruct v as [| | | | |d0|l]; try reflexivity.
  destruct l as [|a l]; [reflexivity|].
  destruct a as [| | | | |d1|l1]; try reflexivity.
  destruct l as [|b [|c [|x rest]]]; reflexivity.
Qed.

Lemma flatten_not_dict (v : bson) (prefix : string) (result : option dict) :
  is_dict v = false -> flatten_nested_document v prefix result = or_empty result.
Proof. destruct v; try reflexivity. discriminate. Qed.

Lemma bson_rect_nested (P : bson -> Prop) :
  P VNone -> (forall b, P (VBool b)) -> (forall z, P (VInt z)) ->
  (forall s, P (VStr s)) -> (forall oid, P (VObjectId oid)) ->
  (forall d, Forall (fun kv => P (snd kv)) d -> P (VDict d)) ->
  (forall l, Forall P l -> P (VList l)) ->
  forall v, P v.
Proof.
  intros HN HB HI HS HO HD HL. fix IH 1.
  intros [|b|z|s|oid|d|l];
    [exact HN | apply HB | apply HI | apply HS | apply HO | |].
  - apply HD. induction d as [|[k v] d IHd]; constructor; [apply IH | exact IHd].
  - apply HL. induction l as [|v l IHl]; constructor; [apply IH | exact IHl].
Qed.

Lemma join_key_nonempty (prefix key : string) :
  prefix <> EmptyString -> join_key prefix key = (prefix ++ "_" ++ key)%string.
Proof. destruct prefix; [congruence | reflexivity]. Qed.

Lemma app_nonempty (a b : string) : b <> EmptyString -> (a ++ b)%string <> EmptyString.
Proof. destruct a; simpl; [auto | discriminate]. Qed.

(** The loop over the first three elements writes below the prefixes
    [new_key_0], [new_key_1] and [new_key_2] only. *)
Lemma flatten_first3_untouched (new_key : string) (l : list bson) (r : dict) (k : string) :
  Forall writes_below l ->
  (forall i s, i < 3 -> k <> (new_key ++ "_" ++ of_nat i ++ "_" ++ s)%string) ->
  dict_get k (flatten_first3 new_key l r) = dict_get k r.
Proof.
  intros Hl Hk. unfold flatten_first3, enumerate.
  assert (G : forall (es : list bson) (i : nat) (r0 : dict),
             Forall writes_below es -> i + List.length es <= 3 ->
             dict_get k
               (fold_left
                  (fun result '(i, item) =>
                     flatten_nested_document item
                       (new_key ++ "_" ++ of_nat i)%string (Some result))
                  (combine (seq i (List.length es)) es) r0)
             = dict_get k r0).
  { induction es as [|e es IH]; intros i r0 He Hi; [reflexivity|].
    inversion He as [|? ? He1 He2]; subst. cbn [List.length seq combine fold_left] in *.
    rewrite IH by (assumption || lia). apply He1.
    - change (new_key ++ "_" ++ of_nat i)%string
        with (new_key ++ ("_" ++ of_nat i))%string.
      apply app_nonempty. discriminate.
    - intros s E. apply (Hk i s); [lia|].
      rewrite E. rewrite !app_assoc. reflexivity. }
  apply G; [|pose proof (firstn_le_length 3 l); lia]. clear G Hk.
  revert Hl. generalize 3. intros n Hl. revert n.
  induction Hl as [|e es He _ IH]; intros [|n]; cbn [firstn]; constructor; auto.
Qed.

Lemma flatten_writes_below (v : bson) :
  writes_below v /\ (forall l, v = VList l -> Forall writes_below l).
Proof.
  induction v as [| | | | | d IH | l IH] using bson_rect_nested;
    try (split; [intros prefix r k _ _; reflexivity | discriminate]).
  - split; [|discriminate].
    intros prefix r k Hp Hk. rewrite flatten_dict_eq. cbn [or_empty].
    revert r. induction IH as [|[key value] d [Hv Hl] _ IHd]; intros r; [reflexivity|].
    cbn [fold_left]. rewrite IHd. cbn [snd] in *.
    unfold flatten_field. rewrite (join_key_nonempty _ _ Hp).
    assert (Hsub : forall s, k <> ((prefix ++ "_" ++ key) ++ "_" ++ s)%string).
    { intros s E. apply (Hk (key ++ "_" ++ s)%string). rewrite E.
      rewrite !app_assoc. reflexivity. }
    assert (Hcount : k <> ((prefix ++ "_" ++ key) ++ "_count")%string).
    { intros E. apply (Hk (key ++ "_count")%string). rewrite E.
      rewrite !app_assoc. reflexivity. }
    assert (Hself : k <> (prefix ++ "_" ++ key)%string) by apply Hk.
    destruct value as [| | | | |d0|l0];
      try (apply dict_get_set_other; exact Hself).
    + apply Hv; [|exact Hsub].
      change (prefix ++ "_" ++ key)%string with (prefix ++ ("_" ++ key))%string.
      apply app_nonempty. discriminate.
    + destruct l0 as [|[| | | | |d1|l1] l0];
        try (apply dict_get_set_other; exact Hcount).
      rewrite flatten_first3_untouched;
        [|now apply Hl|intros i s _; apply (Hsub (of_nat i ++ "_" ++ s)%string)].
      apply dict_get_set_other; exact Hcount.
  - split.
    + intros prefix r k _ _; reflexivity.
    + intros l0 [= <-]. eapply Forall_impl; [|exact IH]. now intros a [Ha _].
Qed.

(** Flattening a flat dictionary into [acc] appends its fields. *)
Lemma flatten_flat_fields (d acc : dict) :
  NoDup (keys acc ++ keys d) ->
  Forall (fun kv => is_scalar (snd kv) = true) d ->
  fold_left (flatten_field "") d acc = acc ++ d.
Proof.
  revert acc. induction d as [|[k v] d IH]; intros acc Hnd Hs.
  - now rewrite app_nil_r.
  - inversion Hs as [|? ? Hv Hd]; subst. cbn [fold_left snd] in *.
    assert (Hstep : flatten_field "" acc (k, v) = acc ++ [(k, v)]).
    { unfold flatten_field, join_key.
      destruct v; try discriminate; apply dict_set_new;
        apply NoDup_remove_2 in Hnd; intros Hin; apply Hnd;
        apply in_or_app; now left. }
    rewrite Hstep, IH; [now rewrite <- List.app_assoc| |assumption].
    unfold keys in *. rewrite map_app, <- List.app_assoc. exact Hnd.
Qed.

End FlattenFacts.

(** ** Loops whose iterations assign at most one field *)

Lemma outcome_bind {A B : Type} (m : M A) (f : A -> M B) :
  outcome (bind m f)
  = match outcome m with inl e => inl e | inr a => outcome (f a) end.
Proof. destruct m as [t [e|a]]; cbn; [reflexivity | now destruct (f a)]. Qed.

Lemma foldM_raises {A S : Type} (body : S -> A -> M S) (l : list A) (a : A) :
  In a l -> (forall s, exists e, outcome (body s a) = inl e) ->
  forall s, exists e, outcome (foldM body l s) = inl e.
Proof.
  intros Hin Hr. induction l as [|b l IH]; [contradiction|]. intros s.
  cbn [foldM]. rewrite outcome_bind. destruct Hin as [->|Hin].
  - destruct (Hr s) as [e ->]. eauto.
  - destruct (outcome (body s b)); eauto.
Qed.

Lemma mapM_raises {A B : Type} (body : A -> M B) (l : list A) (a : A) :
  In a l -> (exists e, outcome (body a) = inl e) ->
  exists e, outcome (mapM body l) = inl e.
Proof.
  intros Hin Hr. induction l as [|b l IH]; [contradiction|].
  cbn [mapM]. rewrite outcome_bind. destruct Hin as [->|Hin].
  - destruct Hr as [e ->]. eauto.
  - destruct (outcome (body b)); [eauto|].
    rewrite outcome_bind. destruct (IH Hin) as [e ->]. eauto.
Qed.

Lemma dict_set_keys_In (k k' : string) (v : bson) (d : dict) :
  In k' (keys d) -> In k' (keys (dict_set k v d)).
Proof.
  induction d as [|[k0 v0] d IH]; simpl; [contradiction|].
  destruct (String.eqb_spec k0 k) as [->|N]; simpl; tauto.
Qed.

Section LoopFacts.

Context {U : CaseTables}.

Variable body : dict -> string * bson -> M dict.
Hypothesis body_effect :
  forall s it s', outcome (body s it) = inr s' ->
    s' = s \/ exists x, s' = dict_set (attach_name (fst it)) x s.

Lemma loop_get (items : list (string * bson)) (s s' : dict) (k : string) :
  outcome (foldM body items s) = inr s' ->
  (forall it, In it items -> attach_name (fst it) <> k) ->
  dict_get k s' = dict_get k s.
Proof.
  revert s. induction items as [|it items IH]; intros s.
  - cbn. now intros [= <-].
  - cbn [foldM]. intros H N. apply bind_inr in H as (s1 & H1 & H).
    rewrite (IH _ H) by (intros; apply N; now right).
    apply body_effect in H1 as [->|(x & ->)]; [reflexivity|].
    apply dict_get_set_other. intros E. apply (N it); [now left | now symmetry].
Qed.

Lemma loop_keys (items : list (string * bson)) (s s' : dict) (k : string) :
  outcome (foldM body items s) = inr s' -> In k (keys s) -> In k (keys s').
Proof.
  revert s. induction items as [|it items IH]; intros s.
  - cbn. now intros [= <-].
  - cbn [foldM]. intros H Hin. apply bind_inr in H as (s1 & H1 & H).
    apply (IH _ H).
    apply body_effect in H1 as [->|(x & ->)]; [assumption|].
    now apply dict_set_keys_In.
Qed.

(** A field assigned by one iteration is still there at the end of the
    loop unless a later iteration assigns the same name. *)
Lemma loop_attached
    (before after : list (string * bson)) (it : string * bson)
    (s s' : dict) (name : string) (x : bson) :
  outcome (foldM body (before ++ it :: after) s) = inr s' ->
  (forall s1 s2, outcome (body s1 it) = inr s2 -> s2 = dict_set name x s1) ->
  (forall it', In it' after -> attach_name (fst it') <> name) ->
  dict_get name s' = Some x.
Proof.
  intros H Hit Hafter. rewrite foldM_app in H.
  apply bind_inr in H as (s1 & _ & H). cbn [foldM] in H.
  apply bind_inr in H as (s2 & H2 & H).
  rewrite (loop_get _ _ _ _ H Hafter).
  rewrite (Hit _ _ H2). apply dict_get_set_same.
Qed.

(** An iteration that leaves the document alone can be dropped from the
    loop without changing what the loop returns. *)
Lemma loop_skip
    (before after : list (string * bson)) (it : string * bson) (s : dict) :
  (forall s1, outcome (body s1 it) = inr s1) ->
  outcome (foldM body (before ++ it :: after) s)
  = outcome (foldM body (before ++ after) s).
Proof.
  intros Hit. rewrite !foldM_app, !outcome_bind.
  destruct (outcome (foldM body before s)) as [e|s1]; [reflexivity|].
  cbn [foldM]. now rewrite outcome_bind, Hit.
Qed.

End LoopFacts.

Lemma level1_effect {U : CaseTables} (db : Accessor) (s : dict) (it : string * bson) (s' : dict) :
  outcome (level1_field db s it) = inr s' ->
  s' = s \/ exists x, s' = dict_set (attach_name (fst it)) x s.
Proof.
  intros H. apply level1_field_effect in H as [->|(x & _ & ->)]; eauto.
Qed.

Lemma level2_effect {U : CaseTables} (db : Accessor) (s : dict) (it : string * bson) (s' : dict) :
  outcome (level2_field db s it) = inr s' ->
  s' = s \/ exists x, s' = dict_set (attach_name (fst it)) x s.
Proof.
  intros H. apply level2_field_effect in H as [->|(x & _ & ->)]; eauto.
Qed.

(** ** Further facts used by the claims *)

(** The keys after an assignment: the same, or one more at the end. *)
Lemma dict_set_keys (k : string) (v : bson) (d : dict) :
  keys (dict_set k v d) = keys d \/ keys (dict_set k v d) = keys d ++ [k].
Proof.
  destruct (in_dec string_dec k (keys d)) as [Hin|Hnot].
  - left. now apply dict_set_keys_present.
  - right. rewrite dict_set_new by assumption. unfold keys. now rewrite map_app.
Qed.

Lemma below_dec (p k : string) : below p k \/ ~ below p k.
Proof.
  assert (G : forall q s : string,
             (exists t, s = (q ++ t)%string) \/ ~ (exists t, s = (q ++ t)%string)).
  { induction q as [|c q IH]; intros s.
    - left. now exists s.
    - destruct s as [|c' s]; [right; intros [t E]; discriminate|].
      destruct (ascii_dec c' c) as [->|N].
      + destruct (IH s) as [[t ->]|No].
        * left. now exists t.
        * right. intros [t E]. injection E as E. apply No. now exists t.
      + right. intros [t E]. injection E as E1 E2. contradiction. }
  destruct (G (p ++ "_")%string k) as [[t E]|No].
  - left. exists t. now rewrite E, StrFacts.app_assoc.
  - right. intros [t E]. apply No. exists t. now rewrite E, StrFacts.app_assoc.
Qed.

Lemma join_key_below (prefix key k : string) :
  prefix <> EmptyString -> below (join_key prefix key) k -> below prefix k.
Proof.
  intros Hp [s ->]. rewrite (join_key_nonempty _ _ Hp).
  exists (key ++ "_" ++ s)%string. now rewrite !StrFacts.app_assoc.
Qed.

(** One iteration of the flattener leaves alone every key that is neither
    [new_key] nor below it. *)
Lemma flatten_field_untouched (prefix : string) (r : dict) (key : string) (value : bson)
    (k : string) :
  join_key prefix key <> EmptyString ->
  k <> join_key prefix key ->
  ~ below (join_key prefix key) k ->
  dict_get k (flatten_field prefix r (key, value)) = dict_get k r.
Proof.
  intros Hne Hk Hb. unfold flatten_field.
  set (new_key := join_key prefix key) in *.
  assert (Hsub : forall s, k <> (new_key ++ "_" ++ s)%string).
  { intros s E. apply Hb. now exists s. }
  destruct value as [| | | | |d0|l0]; try (apply dict_get_set_other; exact Hk).
  - apply flatten_writes_below; assumption.
  - assert (Hc : dict_get k
                   (dict_set (new_key ++ "_count")%string
                      (VInt (Z.of_nat (List.length l0))) r) = dict_get k r).
    { apply dict_get_set_other. apply (Hsub "count"). }
    destruct l0 as [|[| | | | |d1|l1] l0]; try exact Hc.
    rewrite flatten_first3_untouched; [exact Hc| |].
    + apply Forall_forall. intros x _. apply flatten_writes_below.
    + intros i s _. apply Hsub.
Qed.

Lemma join_key_inj (prefix a b : string) : join_key prefix a = join_key prefix b -> a = b.
Proof.
  destruct prefix as [|c p]; [auto|]. unfold join_key. intros E.
  apply StrFacts.app_inv_head in E. now injection E.
Qed.

Lemma join_key_below_inv (prefix a b : string) :
  below (join_key prefix a) (join_key prefix b) -> below a b.
Proof.
  destruct prefix as [|c p]; [auto|]. unfold join_key. intros [s E].
  rewrite !StrFacts.app_assoc in E. apply StrFacts.app_inv_head in E.
  injection E as E. now exists s.
Qed.

Lemma join_key_not_empty (prefix key : string) :
  (prefix = EmptyString -> key <> EmptyString) -> join_key prefix key <> EmptyString.
Proof.
  destruct prefix as [|c p]; [auto|]. intros _. discriminate.
Qed.

(** A loop of the flattener over items none of which writes [k] or below. *)
Lemma flatten_fields_untouched (prefix : string) (items : dict) (r : dict) (k : string) :
  (forall key value, In (key, value) items ->
     join_key prefix key <> EmptyString
     /\ k <> join_key prefix key /\ ~ below (join_key prefix key) k) ->
  dict_get k (fold_left (flatten_field prefix) items r) = dict_get k r.
Proof.
  revert r. induction items as [|[key value] items IH]; intros r H; [reflexivity|].
  cbn [fold_left].
  rewrite IH by (intros key' value' Hin'; apply (H key' value'); now right).
  destruct (H key value (or_introl eq_refl)) as (H1 & H2 & H3).
  now apply flatten_field_untouched.
Qed.

Lemma mapM_inr_Forall2 {A B : Type} (body : A -> M B) (l : list A) (bs : list B) :
  outcome (mapM body l) = inr bs ->
  Forall2 (fun a b => outcome (body a) = inr b) l bs.
Proof.
  revert bs. induction l as [|a l IH]; intros bs.
  - cbn. intros [= <-]. constructor.
  - cbn [mapM]. intros H. apply bind_inr in H as (b0 & H0 & H).
    apply bind_inr in H as (bs0 & Hbs & H). cbn in H. injection H as <-.
    constructor; [exact H0 | now apply IH].
Qed.

(** ** The resolver: shape of the result *)

Lemma level1_field_passes_over {U : CaseTables} (db : Accessor) (job : dict) (item : string * bson) :
  not_reference_key (fst item) = true -> level1_field db job item = ret job.
Proof. destruct item as [key value]. cbn [fst]. unfold level1_field. now intros ->. Qed.

Lemma level2_field_passes_over {U : CaseTables} (db : Accessor) (d : dict) (item : string * bson) :
  not_reference_key (fst item) = true -> level2_field db d item = ret d.
Proof. destruct item as [key value]. cbn [fst]. unfold level2_field. now intros ->. Qed.

(** An iteration of the outer loop changes the job only for a reference
    field, and then by one assignment under the derived name. *)
Lemma level1_effect_reference {U : CaseTables} (db : Accessor) (s s' : dict) (it : string * bson) :
  outcome (level1_field db s it) = inr s' ->
  s' = s
  \/ (not_reference_key (fst it) = false
      /\ exists x, s' = dict_set (attach_name (fst it)) x s).
Proof.
  intros H. destruct (not_reference_key (fst it)) eqn:K.
  - rewrite (level1_field_passes_over db s it K) in H. cbn in H. injection H as <-. now left.
  - apply level1_effect in H as [->|H]; auto.
Qed.

Lemma level2_effect_reference {U : CaseTables} (db : Accessor) (s s' : dict)
    (it : string * bson) :
  outcome (level2_field db s it) = inr s' ->
  s' = s
  \/ (not_reference_key (fst it) = false
      /\ exists x, s' = dict_set (attach_name (fst it)) x s).
Proof.
  intros H. destruct (not_reference_key (fst it)) eqn:K.
  - rewrite (level2_field_passes_over db s it K) in H. cbn in H. injection H as <-. now left.
  - apply level2_effect in H as [->|H]; auto.
Qed.

(** The result of a successful call, document by document. *)
Lemma resolve_jobs_pairs {U : CaseTables} (db : Accessor) (limit : Z)
    (jobs jobs' : list dict) :
  aggregate db limit = inr jobs ->
  outcome (resolve_jobs db limit) = inr jobs' ->
  get_flattened_job_data db limit = jobs'
  /\ Forall2 (fun job job' => outcome (resolve_job db job) = inr job') jobs jobs'.
Proof.
  intros Hagg Hok. split.
  - unfold get_flattened_job_data. now rewrite Hok.
  - unfold resolve_jobs in Hok. rewrite outcome_bind in Hok.
    cbn [do_aggregate outcome snd] in Hok. rewrite Hagg in Hok.
    now apply mapM_inr_Forall2.
Qed.

(** ** Loops in which only reference fields assign *)

Section ReferenceLoops.

Context {U : CaseTables}.
Variable body : dict -> string * bson -> M dict.
Hypothesis body_effect :
  forall s it s', outcome (body s it) = inr s' ->
    s' = s
    \/ (not_reference_key (fst it) = false
        /\ exists x, s' = dict_set (attach_name (fst it)) x s).

Lemma ref_loop_get (items : list (string * bson)) (s s' : dict) (k : string) :
  outcome (foldM body items s) = inr s' ->
  (forall it, In it items -> not_reference_key (fst it) = false ->
     attach_name (fst it) <> k) ->
  dict_get k s' = dict_get k s.
Proof.
  revert s. induction items as [|it items IH]; intros s.
  - cbn. now intros [= <-].
  - cbn [foldM]. intros H N. apply bind_inr in H as (s1 & H1 & H).
    rewrite (IH _ H) by (intros; apply N; [now right | assumption]).
    apply body_effect in H1 as [->|(K & x & ->)]; [reflexivity|].
    apply dict_get_set_other. intros E. apply (N it); [now left | exact K | now symmetry].
Qed.

Lemma ref_loop_plain (items : list (string * bson)) (s s' : dict) :
  Forall plain_field items ->
  outcome (foldM body items s) = inr s' -> s' = s.
Proof.
  intros Hp. revert s. induction Hp as [|it items Hit _ IH]; intros s.
  - cbn. now intros [= <-].
  - cbn [foldM]. intros H. apply bind_inr in H as (s1 & H1 & H).
    apply body_effect in H1 as [->|(K & _)]; [now apply IH|].
    unfold plain_field in Hit. congruence.
Qed.

(** What the loop returns when one item only follows the convention. *)
Lemma ref_loop_only (before after : list (string * bson)) (it : string * bson)
    (s s' : dict) :
  Forall plain_field before -> Forall plain_field after ->
  outcome (foldM body (before ++ it :: after) s) = inr s' ->
  outcome (body s it) = inr s'.
Proof.
  intros Hb Ha H. rewrite foldM_app in H.
  apply bind_inr in H as (s1 & H1 & H). cbn [foldM] in H.
  apply bind_inr in H as (s2 & H2 & H).
  apply (ref_loop_plain _ _ _ Hb) in H1. apply (ref_loop_plain _ _ _ Ha) in H.
  now subst.
Qed.

(** A field assigned by one iteration is still there at the end of the
    loop unless a later reference field derives the same name. *)
Lemma ref_loop_attached
    (before after : list (string * bson)) (it : string * bson)
    (s s' : dict) (name : string) (x : bson) :
  outcome (foldM body (before ++ it :: after) s) = inr s' ->
  (forall s1 s2, outcome (body s1 it) = inr s2 -> s2 = dict_set name x s1) ->
  (forall it', In it' after -> not_reference_key (fst it') = false ->
     attach_name (fst it') <> name) ->
  dict_get name s' = Some x.
Proof.
  intros H Hit Hafter. rewrite foldM_app in H.
  apply bind_inr in H as (s1 & _ & H). cbn [foldM] in H.
  apply bind_inr in H as (s2 & H2 & H).
  rewrite (ref_loop_get _ _ _ _ H Hafter).
  rewrite (Hit _ _ H2). apply dict_get_set_same.
Qed.

(** The loop adds at most one key for each reference field, at the end. *)
Lemma ref_loop_growth (items : list (string * bson)) (s s' : dict) :
  outcome (foldM body items s) = inr s' ->
  exists extra,
    keys s' = keys s ++ extra
    /\ List.length extra <= List.length (reference_fields items).
Proof.
  revert s. induction items as [|it items IH]; intros s.
  - cbn. intros [= <-]. exists []. now rewrite app_nil_r.
  - cbn [foldM]. intros H. apply bind_inr in H as (s1 & H1 & H).
    destruct (IH _ H) as (extra & Hk & Hlen).
    unfold reference_fields in *. cbn [filter].
    apply body_effect in H1 as [->|(K & x & ->)].
    + exists extra. split; [exact Hk|].
      destruct (negb (not_reference_key (fst it))); cbn [List.length]; lia.
    + rewrite K. cbn [negb List.length].
      destruct (dict_set_keys (attach_name (fst it)) x s) as [E|E]; rewrite E in Hk.
      * exists extra. split; [exact Hk | lia].
      * exists (attach_name (fst it) :: extra). split.
        -- now rewrite Hk, <- List.app_assoc.
        -- cbn [List.length]. lia.
Qed.

End ReferenceLoops.

(** ** What the loops of the resolver leave in the document *)

Section Attachments.

Context {U : CaseTables}.
Variable db : Accessor.
Variable names : list string.
Hypothesis listing : list_collection_names db = inr names.
Variable base : string.
Hypothesis base_nonempty : base <> EmptyString.
Hypothesis known : mem (capitalize base) names = true.

Lemma outer_loop_single (before after : list (string * bson)) (oid : string)
    (f : string * bson) (d s s' : dict) :
  find_one db (capitalize base) (VObjectId oid) = inr (Some (f :: d)) ->
  outcome (foldM (level1_field db)
             (before ++ ((base ++ "ID")%string, VObjectId oid) :: after) s) = inr s' ->
  exists d',
    outcome (resolve_level2 db (f :: d)) = inr d'
    /\ (clear_of (str_lower base) after -> dict_get (str_lower base) s' = Some (VDict d'))
    /\ (Forall plain_field before -> Forall plain_field after ->
        s' = dict_set (str_lower base) (VDict d') s).
Proof.
  intros F H.
  assert (Hstep : forall s1 s2,
             outcome (level1_field db s1 ((base ++ "ID")%string, VObjectId oid)) = inr s2 ->
             exists d', outcome (resolve_level2 db (f :: d)) = inr d'
                        /\ s2 = dict_set (str_lower base) (VDict d') s1).
  { intros s1 s2. rewrite (level1_field_single db names listing base base_nonempty known), F.
    cbn [outcome snd]. destruct (outcome (resolve_level2 db (f :: d))) as [e|d'];
      [discriminate|]. intros [= <-]. now exists d'. }
  pose proof H as H0. rewrite foldM_app in H0.
  apply bind_inr in H0 as (s1 & _ & H0). cbn [foldM] in H0.
  apply bind_inr in H0 as (s2 & H2 & _).
  destruct (Hstep _ _ H2) as (d' & Hd' & _). exists d'. split; [exact Hd'|]. split.
  - intros Hclear.
    apply (ref_loop_attached (level1_field db) (fun a b c => level1_effect_reference db a c b)
             before after _ s s' _ _ H); [|exact Hclear].
    intros t1 t2 Ht. destruct (Hstep _ _ Ht) as (d'' & Hd'' & ->).
    rewrite Hd' in Hd''. now injection Hd'' as <-.
  - intros Hb Ha.
    apply (ref_loop_only (level1_field db) (fun a b c => level1_effect_reference db a c b)
             before after _ s s' Hb Ha) in H.
    destruct (Hstep _ _ H) as (d'' & Hd'' & ->).
    rewrite Hd' in Hd''. now injection Hd'' as <-.
Qed.

Lemma outer_loop_multi (before after : list (string * bson)) (ids : list bson)
    (docs : list dict) (s s' : dict) :
  find db (capitalize base) ids = inr docs ->
  outcome (foldM (level1_field db)
             (before ++ ((base ++ "IDs")%string, VList ids) :: after) s) = inr s' ->
  (clear_of (str_lower base ++ "s")%string after ->
   dict_get (str_lower base ++ "s")%string s' = Some (VList (map VDict docs)))
  /\ (Forall plain_field before -> Forall plain_field after ->
      s' = dict_set (str_lower base ++ "s")%string (VList (map VDict docs)) s).
Proof.
  intros F H.
  assert (Hstep : forall s1 s2,
             outcome (level1_field db s1 ((base ++ "IDs")%string, VList ids)) = inr s2 ->
             s2 = dict_set (str_lower base ++ "s")%string (VList (map VDict docs)) s1).
  { intros s1 s2. rewrite (level1_field_multi db names listing base base_nonempty known), F.
    cbn. now intros [= <-]. }
  split.
  - intros Hclear.
    now apply (ref_loop_attached (level1_field db) (fun a b c => level1_effect_reference db a c b)
                 before after _ s s' _ _ H).
  - intros Hb Ha.
    apply (ref_loop_only (level1_field db) (fun a b c => level1_effect_reference db a c b)
             before after _ s s' Hb Ha) in H. now apply Hstep.
Qed.


Lemma inner_loop_single (before after : list (string * bson)) (oid : string)
    (f : string * bson) (d s s' : dict) :
  find_one db (capitalize base) (VObjectId oid) = inr (Some (f :: d)) ->
  outcome (foldM (level2_field db)
             (before ++ ((base ++ "ID")%string, VObjectId oid) :: after) s) = inr s' ->
  clear_of (str_lower base) after ->
  dict_get (str_lower base) s' = Some (VDict (f :: d)).
Proof.
  intros F H Hclear.
  apply (ref_loop_attached (level2_field db) (fun a b c => level2_effect_reference db a c b)
           before after _ s s' _ _ H); [|exact Hclear].
  intros s1 s2. rewrite (level2_field_single db names listing base base_nonempty known), F.
  cbn. now intros [= <-].
Qed.

Lemma inner_loop_multi (before after : list (string * bson)) (ids : list bson)
    (docs : list dict) (s s' : dict) :
  find db (capitalize base) ids = inr docs ->
  outcome (foldM (level2_field db)
             (before ++ ((base ++ "IDs")%string, VList ids) :: after) s) = inr s' ->
  clear_of (str_lower base ++ "s")%string after ->
  dict_get (str_lower base ++ "s")%string s' = Some (VList (map VDict docs)).
Proof.
  intros F H Hclear.
  apply (ref_loop_attached (level2_field db) (fun a b c => level2_effect_reference db a c b)
           before after _ s s' _ _ H); [|exact Hclear].
  intros s1 s2. rewrite (level2_field_multi db names listing base base_nonempty known), F.
  cbn. now intros [= <-].
Qed.


End Attachments.

(** What a point lookup on the in-memory accessor can return. *)
Lemma memory_db_fetched (jobs : list dict) (store : list (string * list dict)) (d : dict) :
  fetched_one (Fixture.memory_db jobs store) d -> exists c, In c store /\ In d (snd c).
Proof.
  intros (coll & id & H). cbn in H. injection H as H.
  apply find_some in H as [H _]. unfold Fixture.collection in H.
  destruct (List.find (fun c => String.eqb (fst c) coll) store) as [c|] eqn:E;
    [|contradiction].
  apply find_some in E as [E _]. now exists c.
Qed.

(** ** Names made of ASCII characters *)

Section AsciiNames.
Import Str.

Lemma is_ascii_take (n : nat) (s : string) : is_ascii s = true -> is_ascii (take n s) = true.
Proof.
  revert s. induction n as [|n IH]; intros [|c s]; cbn; try reflexivity.
  intros H. apply andb_true_iff in H as [Hc Hs]. now rewrite Hc, IH.
Qed.

Lemma split_key_ascii (key : string) :
  is_ascii key = true -> is_ascii (fst (split_key key)) = true.
Proof.
  intros H. unfold split_key, drop_last.
  destruct (endswith key "IDs"); cbn [fst]; now apply is_ascii_take.
Qed.

Lemma ascii_not_continuation (c : ascii) :
  is_ascii_char c = true -> is_continuation c = false.
Proof.
  unfold is_ascii_char, is_continuation. intros H. apply Nat.ltb_lt in H.
  apply andb_false_iff. left. apply Nat.leb_gt. exact H.
Qed.

Lemma continuation_ascii (s : string) :
  is_ascii s = true -> continuation s = EmptyString /\ after_continuation s = s.
Proof.
  destruct s as [|c s]; cbn; [auto|]. intros H. apply andb_true_iff in H as [Hc _].
  now rewrite (ascii_not_continuation c Hc).
Qed.

Context {U : CaseTables}.
Hypothesis tables : agrees_on_ascii U.

Lemma str_lower_ascii (s : string) :
  is_ascii s = true -> @str_lower U s = @str_lower ascii_tables s.
Proof. intros H. now rewrite (proj1 tables s H). Qed.

Lemma collection_name_of_ascii (base : string) :
  is_ascii base = true ->
  @collection_name_of U base = @collection_name_of ascii_tables base.
Proof.
  destruct base as [|c r]; [reflexivity|]. cbn [is_ascii collection_name_of].
  intros H. apply andb_true_iff in H as [Hc Hr].
  destruct (continuation_ascii r Hr) as [-> ->].
  now rewrite (proj2 tables c Hc).
Qed.

Variable db : Accessor.

Lemma level2_field_ascii (d : dict) (key : string) (value : bson) :
  is_ascii key = true ->
  @level2_field U db d (key, value) = @level2_field ascii_tables db d (key, value).
Proof.
  intros H. apply split_key_ascii in H. unfold level2_field.
  destruct (not_reference_key key); [reflexivity|].
  destruct (split_key key) as [b arr]. cbn [fst] in H.
  now rewrite (collection_name_of_ascii b H), (str_lower_ascii b H).
Qed.

Lemma foldM_ext {A S : Type} (body1 body2 : S -> A -> M S) (l : list A) :
  (forall s a, In a l -> body1 s a = body2 s a) ->
  forall s, foldM body1 l s = foldM body2 l s.
Proof.
  induction l as [|a l IH]; intros Hb s; [reflexivity|].
  cbn [foldM]. rewrite (Hb s a (or_introl eq_refl)).
  destruct (body2 s a) as [t [e|s1]]; [reflexivity|].
  cbn. rewrite IH by (intros; apply Hb; now right). reflexivity.
Qed.

Lemma mapM_ext {A B : Type} (body1 body2 : A -> M B) (l : list A) :
  (forall a, In a l -> body1 a = body2 a) -> mapM body1 l = mapM body2 l.
Proof.
  induction l as [|a l IH]; intros Hb; [reflexivity|].
  cbn [mapM]. rewrite (Hb a (or_introl eq_refl)), IH by (intros; apply Hb; now right).
  reflexivity.
Qed.

Lemma ascii_keys_In (d : dict) (it : string * bson) :
  ascii_keys d = true -> In it d -> is_ascii (fst it) = true.
Proof.
  unfold ascii_keys. intros H Hin. rewrite forallb_forall in H. now apply H.
Qed.

Lemma resolve_level2_ascii (d : dict) :
  ascii_keys d = true -> @resolve_level2 U db d = @resolve_level2 ascii_tables db d.
Proof.
  intros H. unfold resolve_level2. apply foldM_ext. intros s [key value] Hin.
  apply level2_field_ascii. exact (ascii_keys_In d _ H Hin).
Qed.

Hypothesis stored : forall d, fetched_one db d -> ascii_keys d = true.

Lemma level1_field_ascii (job : dict) (key : string) (value : bson) :
  is_ascii key = true ->
  @level1_field U db job (key, value) = @level1_field ascii_tables db job (key, value).
Proof.
  intros H. apply split_key_ascii in H. unfold level1_field.
  destruct (not_reference_key key); [reflexivity|].
  destruct (split_key key) as [b arr]. cbn [fst] in H.
  rewrite (collection_name_of_ascii b H), (str_lower_ascii b H).
  destruct (@collection_name_of ascii_tables b) as [t [e|coll]]; [reflexivity|].
  rewrite !bind_ok. f_equal; [f_equal|];
    (unfold do_list_collection_names;
     destruct (list_collection_names db) as [e|names]; [reflexivity|];
     rewrite !bind_ok; cbn [trace outcome fst snd];
     destruct (negb (mem coll names)); [reflexivity|];
     destruct arr; [reflexivity|];
     destruct value; try reflexivity;
     unfold do_find_one;
     destruct (find_one db coll (VObjectId oid)) as [e|[[|f d1]|]] eqn:F;
       try reflexivity;
     rewrite !bind_ok; cbn [trace outcome fst snd truthy];
     rewrite (resolve_level2_ascii (f :: d1))
       by (apply stored; now exists coll, (VObjectId oid));
     reflexivity).
Qed.

Lemma resolve_jobs_ascii (limit : Z) :
  (forall jobs, aggregate db limit = inr jobs -> forallb ascii_keys jobs = true) ->
  @resolve_jobs U db limit = @resolve_jobs ascii_tables db limit.
Proof.
  intros Hroots. unfold resolve_jobs, do_aggregate.
  destruct (aggregate db limit) as [e|jobs] eqn:A; [reflexivity|].
  rewrite !bind_ok. specialize (Hroots jobs eq_refl). rewrite forallb_forall in Hroots.
  assert (E : mapM (@resolve_job U db) jobs = mapM (@resolve_job ascii_tables db) jobs).
  { apply mapM_ext. intros job Hjob. unfold resolve_job. apply foldM_ext.
    intros s [key value] Hin. apply level1_field_ascii.
    exact (ascii_keys_In job _ (Hroots job Hjob) Hin). }
  now rewrite E.
Qed.

End AsciiNames.

(** On the in-memory accessor with ASCII field names the tables do not
    matter. *)
Lemma memory_db_ascii {U : CaseTables} (jobs : list dict)
    (store : list (string * list dict)) (limit : Z) :
  agrees_on_ascii U ->
  forallb ascii_keys jobs = true ->
  forallb (fun c => forallb ascii_keys (snd c)) store = true ->
  @resolve_jobs U (Fixture.memory_db jobs store) limit
  = @resolve_jobs ascii_tables (Fixture.memory_db jobs store) limit.
Proof.
  intros HU Hjobs Hstore. apply resolve_jobs_ascii; [exact HU| |].
  - intros d Hd. apply memory_db_fetched in Hd as (c & Hc & Hd).
    rewrite forallb_forall in Hstore. specialize (Hstore c Hc).
    rewrite forallb_forall in Hstore. now apply Hstore.
  - intros js Hjs. cbn in Hjs. injection Hjs as <-.
    apply forallb_forall. intros job Hjob. rewrite forallb_forall in Hjobs.
    apply Hjobs. revert Hjob. generalize (Z.to_nat limit) as n. clear.
    intros n. revert jobs. induction n as [|n IH]; intros [|j jobs]; cbn; try tauto.
    intros [->|H]; [now left | right; now apply IH].
Qed.

(** ** Flattening a document field by field *)

Lemma flatten_app (d1 d2 : dict) (prefix : string) (result : option dict) :
  flatten_nested_document (VDict (d1 ++ d2)) prefix result
  = flatten_nested_document (VDict d2) prefix
      (Some (flatten_nested_document (VDict d1) prefix result)).
Proof. rewrite !flatten_dict_eq, fold_left_app. reflexivity. Qed.
(** * The claims *)

Import Fixture.

(** The naming convention on the field names of the specification. *)
Example naming_convention :
  split_key "jobLocationID" = ("jobLocation", false)
  /\ split_key "technicianProfileIDs" = ("technicianProfile", true)
  /\ collection_name_of (U := ascii_tables) "jobLocation" = ret "JobLocation"
  /\ attach_name (U := ascii_tables) "jobLocationID" = "joblocation"
  /\ attach_name (U := ascii_tables) "technicianProfileIDs" = "technicianprofiles"
  /\ not_reference_key "_id" = true
  /\ not_reference_key "customerContact" = true
  /\ not_reference_key "ID" = false.
Proof. repeat split; reflexivity. Qed.

(** The scenarios have ASCII field names only: they run the same under all
    tables that agree with the ASCII ones on ASCII text. *)
Lemma scenarios_do_not_depend_on_the_tables (U : CaseTables) :
  agrees_on_ascii U ->
  @resolve_jobs U scenario_db 10 = @resolve_jobs ascii_tables scenario_db 10
  /\ @resolve_jobs U team_db 10 = @resolve_jobs ascii_tables team_db 10
  /\ @resolve_jobs U tags_db 10 = @resolve_jobs ascii_tables tags_db 10
  /\ @resolve_jobs U collision_db 10 = @resolve_jobs ascii_tables collision_db 10.
Proof.
  intros HU. repeat split; apply memory_db_ascii; auto.
Qed.

(** ** C1: the name of the attached field *)

(** C1, counterexample.  In the end-to-end scenario (identifiers being
    [ObjectId]s) the reference [jobLocationID] is resolved, yet the job has
    no field [jobLocation], the name obtained by lower-casing the first
    character only, and the flattened row has neither [jobLocation_name] nor
    [jobLocation_customer_name].  All names being ASCII, this is so under
    every case table that agrees with the ASCII ones on ASCII text. *)
Lemma C1_first_character_only_fails :
  spec_field_name (U := ascii_tables) "jobLocation" false = "jobLocation"
  /\ (forall U : CaseTables, agrees_on_ascii U ->
        @get_flattened_job_data U scenario_db 10
        = @get_flattened_job_data ascii_tables scenario_db 10)
  /\ exists job,
       get_flattened_job_data (U := ascii_tables) scenario_db 10 = [job]
       /\ dict_get "joblocation" job
          = Some (VDict (location_loc1 ++ [("customer", VDict customer_c1)]))
       /\ dict_get (spec_field_name (U := ascii_tables) "jobLocation" false) job = None
       /\ dict_get "jobLocation_name"
            (flatten_nested_document (VDict job) "" None) = None
       /\ dict_get "jobLocation_customer_name"
            (flatten_nested_document (VDict job) "" None) = None.
Proof.
  split; [reflexivity|]. split.
  - intros U HU. unfold get_flattened_job_data.
    now rewrite (proj1 (scenarios_do_not_depend_on_the_tables U HU)).
  - eexists. split; [reflexivity|]. repeat split; reflexivity.
Qed.

(** C1, amended.  For every successfully resolved reference field with base
    name [base], at either level, the resolver attaches the result under
    [base.lower()], the base name lower-cased in full, followed by [s] for a
    multi-reference: when the call succeeds, the document returned for a
    root holds the fetched document (with what the inner loop embedded in
    it), respectively the fetched sequence, under that name, unless a later
    reference field of the root derives the same name; and so does the inner
    loop on a fetched document.  In the end-to-end scenario resolving
    [jobLocationID] attaches the field [joblocation], in which the customer
    is embedded, and flattening yields the keys [joblocation_name] and
    [joblocation_customer_name]. *)
Theorem C1_attached_under_lowercased_base {U : CaseTables}
    (db : Accessor) (limit : Z) (jobs jobs' : list dict)
    (names : list string) (base : string)
    (Htables : agrees_on_ascii U)
    (Hagg : aggregate db limit = inr jobs)
    (Hok : outcome (resolve_jobs db limit) = inr jobs')
    (Hlist : list_collection_names db = inr names)
    (Hbase : base <> EmptyString)
    (Hknown : mem (capitalize base) names = true) :
  get_flattened_job_data db limit = jobs'
  /\ Forall2
       (fun job job' =>
          (forall before after oid f d,
              job = before ++ ((base ++ "ID")%string, VObjectId oid) :: after ->
              find_one db (capitalize base) (VObjectId oid) = inr (Some (f :: d)) ->
              clear_of (str_lower base) after ->
              exists d',
                outcome (resolve_level2 db (f :: d)) = inr d'
                /\ dict_get (str_lower base) job' = Some (VDict d'))
          /\ (forall before after ids docs,
              job = before ++ ((base ++ "IDs")%string, VList ids) :: after ->
              find db (capitalize base) ids = inr docs ->
              clear_of (str_lower base ++ "s")%string after ->
              dict_get (str_lower base ++ "s")%string job'
              = Some (VList (map VDict docs))))
       jobs jobs'
  /\ (forall before after oid f d d',
      find_one db (capitalize base) (VObjectId oid) = inr (Some (f :: d)) ->
      outcome (resolve_level2 db
                 (before ++ ((base ++ "ID")%string, VObjectId oid) :: after)) = inr d' ->
      clear_of (str_lower base) after ->
      dict_get (str_lower base) d' = Some (VDict (f :: d)))
  /\ (forall before after ids docs d',
      find db (capitalize base) ids = inr docs ->
      outcome (resolve_level2 db
                 (before ++ ((base ++ "IDs")%string, VList ids) :: after)) = inr d' ->
      clear_of (str_lower base ++ "s")%string after ->
      dict_get (str_lower base ++ "s")%string d' = Some (VList (map VDict docs)))
  /\ (get_flattened_job_data scenario_db 10
      = [job_j1
         ++ [("joblocation",
              VDict (location_loc1 ++ [("customer", VDict customer_c1)]))]]
      /\ forall job, In job (get_flattened_job_data scenario_db 10) ->
           dict_get "joblocation_name"
             (flatten_nested_document (VDict job) "" None) = Some (VStr "Site A")
           /\ dict_get "joblocation_customer_name"
                (flatten_nested_document (VDict job) "" None) = Some (VStr "Acme")).
Proof.
  destruct (resolve_jobs_pairs db limit jobs jobs' Hagg Hok) as [Hres Hpairs].
  assert (Hscenario : get_flattened_job_data scenario_db 10
                      = [job_j1
                         ++ [("joblocation",
                              VDict (location_loc1 ++ [("customer", VDict customer_c1)]))]]).
  { unfold get_flattened_job_data.
    now rewrite (proj1 (scenarios_do_not_depend_on_the_tables U Htables)). }
  repeat apply conj.
  - exact Hres.
  - eapply Forall2_impl; [|exact Hpairs]. intros job job' H. split.
    + intros before after oid f d -> F Hclear. unfold resolve_job in H.
      destruct (outer_loop_single db names Hlist base Hbase Hknown _ _ _ _ _ _ _ F H)
        as (d' & Hd' & Hget & _).
      exists d'. split; [exact Hd' | now apply Hget].
    + intros before after ids docs -> F Hclear. unfold resolve_job in H.
      now apply (proj1 (outer_loop_multi db names Hlist base Hbase Hknown _ _ _ _ _ _ F H)).
  - intros before after oid f d d' F H Hclear. unfold resolve_level2 in H.
    exact (inner_loop_single db names Hlist base Hbase Hknown _ _ _ _ _ _ _ F H Hclear).
  - intros before after ids docs d' F H Hclear. unfold resolve_level2 in H.
    exact (inner_loop_multi db names Hlist base Hbase Hknown _ _ _ _ _ _ F H Hclear).
  - exact Hscenario.
  - rewrite Hscenario. intros job [<-|[]]. split; reflexivity.
Qed.

Lemma C1_attached_under_lowercased_base_witness :
  get_flattened_job_data (U := ascii_tables) scenario_db 10
  = [job_j1
     ++ [("joblocation", VDict (location_loc1 ++ [("customer", VDict customer_c1)]))]].
Proof.
  refine (proj1 (C1_attached_under_lowercased_base (U := ascii_tables) scenario_db 10
                   [job_j1] _ ["Job"; "JobLocation"; "Customer"] "jobLocation"
                   ascii_tables_agree eq_refl eq_refl eq_refl _ eq_refl)).
  discriminate.
Defined.

(** ** C2: what a multi-reference and an unmatched single reference attach *)



(** ** C3: a raising accessor gives the empty list *)

(** C3.  If any call the resolver makes to the accessor (the root
    aggregation, a listing of the collection names, a batch fetch or a point
    lookup, at either level) raises an exception, [get_flattened_job_data]
    returns the empty list. *)
Theorem C3_accessor_exception_gives_empty_list {U : CaseTables}
    (db : Accessor) (limit : Z) (c : call)
    (Hcall : In c (trace (resolve_jobs db limit)))
    (Hraises : raises db c) :
  get_flattened_job_data db limit = [].
Proof.
  unfold get_flattened_job_data.
  destruct (sound_resolve_jobs db limit c Hcall Hraises) as [e ->].
  reflexivity.
Qed.

Lemma C3_accessor_exception_gives_empty_list_witness :
  get_flattened_job_data (U := ascii_tables) broken_db 10 = [].
Proof.
  apply (C3_accessor_exception_gives_empty_list (U := ascii_tables) broken_db 10
           (CFindOne "Customer" (VObjectId "c1"))).
  - vm_compute. tauto.
  - exists (AccessorError "find_one"). reflexivity.
Defined.

(** ** C4: the depth bound *)

(** C4.  Every field of every job returned is a field of the root document,
    or the sequence of documents a batch fetch returned, or a document a
    point lookup returned on which the inner loop ran; and every field of
    the latter is a field of the fetched document or a value the accessor
    returned, attached as it is.  So a document attached at level 2 is
    exactly what the accessor returned: its own reference fields are not
    resolved and it gains no field. *)
Theorem C4_level2_documents_are_attached_as_fetched {U : CaseTables}
    (db : Accessor) (limit : Z) (job' : dict)
    (Hin : In job' (get_flattened_job_data db limit)) :
  exists jobs job,
    aggregate db limit = inr jobs /\ In job jobs
    /\ forall k v, In (k, v) job' -> In (k, v) job \/ attached_level1 db v.
Proof.
  unfold get_flattened_job_data in Hin.
  destruct (outcome (resolve_jobs db limit)) as [e|jobs'] eqn:R; [contradiction|].
  unfold resolve_jobs in R. apply bind_inr in R as (jobs & A & R).
  destruct (mapM_inr_In _ _ _ _ R Hin) as (job & Hjob & Hres).
  exists jobs, job. repeat split; [exact A | exact Hjob |].
  now apply resolve_job_fields.
Qed.

Lemma C4_level2_documents_are_attached_as_fetched_witness :
  exists jobs job,
    aggregate chain_db 10 = inr jobs /\ In job jobs
    /\ forall k v,
         In (k, v)
            (job_j1
             ++ [("joblocation",
                  VDict (location_loc1 ++ [("customer", VDict customer_c1r)]))]) ->
         In (k, v) job \/ attached_level1 chain_db v.
Proof.
  apply (C4_level2_documents_are_attached_as_fetched (U := ascii_tables) chain_db 10).
  left. reflexivity.
Defined.

(** The chain job -> location -> customer -> region stops at the customer:
    the region is never looked up. *)
Example depth_bound_on_a_chain :
  resolve_jobs (U := ascii_tables) chain_db 10
  = ([CAggregate 10; CListCollectionNames; CFindOne "JobLocation" (VObjectId "loc1");
      CListCollectionNames; CFindOne "Customer" (VObjectId "c1")],
     inr [job_j1
          ++ [("joblocation",
               VDict (location_loc1 ++ [("customer", VDict customer_c1r)]))]])
  /\ dict_get "regionID" customer_c1r = Some (VObjectId "r1")
  /\ find_one chain_db "Region" (VObjectId "r1") = inr (Some region_r1).
Proof. repeat split; reflexivity. Qed.

(** ** C5: which attached documents the resolver recurses into *)




(** ** C6: values of the wrong type *)

(** C6, counterexample.  The field [tagIDs] holds a sequence of values none
    of which is an identifier; the collection [Tag] exists.  The resolver
    makes the batch fetch and attaches the field [tags].  All names being
    ASCII, this is so under every case table that agrees with the ASCII ones
    on ASCII text. *)
Lemma C6_sequence_of_non_identifiers_is_fetched :
  dict_get "tagIDs" job_j4 = Some (VList [VStr "urgent"; VInt 7])
  /\ (forall U : CaseTables, agrees_on_ascii U ->
        @resolve_jobs U tags_db 10 = @resolve_jobs ascii_tables tags_db 10)
  /\ resolve_jobs (U := ascii_tables) tags_db 10
     = ([CAggregate 10; CListCollectionNames; CFind "Tag" [VStr "urgent"; VInt 7]],
        inr [job_j4 ++ [("tags", VList [])]]).
Proof.
  split; [reflexivity|]. split; [|reflexivity].
  intros U HU. exact (proj1 (proj2 (proj2 (scenarios_do_not_depend_on_the_tables U HU)))).
Qed.

(** C6, amended.  For every reference field with a non-empty base name,
    when the collection names can be listed: an [ID] field whose value is
    not an identifier and an [IDs] field whose value is not a sequence (the
    elements of a sequence are not inspected) are skipped at either level.
    The only accessor call is the listing of the collection names, no fetch
    is made, the document is left as it was, and the loop over the sibling
    fields returns what it returns without that field. *)
Theorem C6_value_of_the_wrong_type_is_skipped {U : CaseTables}
    (db : Accessor) (names : list string) (base key : string) (value : bson)
    (Hlist : list_collection_names db = inr names)
    (Hbase : base <> EmptyString)
    (Hshape : (key = (base ++ "ID")%string /\ forall oid, value <> VObjectId oid)
              \/ (key = (base ++ "IDs")%string /\ is_list value = false)) :
  (forall doc,
      level1_field db doc (key, value) = ([CListCollectionNames], inr doc)
      /\ level2_field db doc (key, value) = ([CListCollectionNames], inr doc)
      /\ existsb is_fetch (trace (level1_field db doc (key, value))) = false
      /\ existsb is_fetch (trace (level2_field db doc (key, value))) = false)
  /\ (forall before after doc,
      outcome (foldM (level1_field db) (before ++ (key, value) :: after) doc)
      = outcome (foldM (level1_field db) (before ++ after) doc))
  /\ (forall before after doc,
      outcome (foldM (level2_field db) (before ++ (key, value) :: after) doc)
      = outcome (foldM (level2_field db) (before ++ after) doc)).
Proof.
  assert (H1 : forall doc,
             level1_field db doc (key, value) = ([CListCollectionNames], inr doc)).
  { intros doc. destruct (mem (capitalize base) names) eqn:K.
    - now apply (level1_field_malformed db names Hlist base Hbase K).
    - apply (level1_field_unknown_collection db names Hlist base Hbase); [|exact K].
      destruct Hshape as [[-> _]|[-> _]]; auto. }
  assert (H2 : forall doc,
             level2_field db doc (key, value) = ([CListCollectionNames], inr doc)).
  { intros doc. destruct (mem (capitalize base) names) eqn:K.
    - now apply (level2_field_malformed db names Hlist base Hbase K).
    - apply (level2_field_unknown_collection db names Hlist base Hbase); [|exact K].
      destruct Hshape as [[-> _]|[-> _]]; auto. }
  repeat apply conj.
  - intros doc. rewrite H1, H2. repeat split; reflexivity.
  - intros before after doc. apply loop_skip. intros s1. now rewrite H1.
  - intros before after doc. apply loop_skip. intros s1. now rewrite H2.
Qed.

Lemma C6_value_of_the_wrong_type_is_skipped_witness :
  level1_field (U := ascii_tables) scenario_db job_j1 ("jobLocationID", VStr "loc1")
  = ([CListCollectionNames], inr job_j1).
Proof.
  refine (proj1 (proj1 (C6_value_of_the_wrong_type_is_skipped (U := ascii_tables)
                          scenario_db
                          ["Job"; "JobLocation"; "Customer"] "jobLocation"
                          "jobLocationID" (VStr "loc1") eq_refl _ _) job_j1)).
  - discriminate.
  - left. split; [reflexivity | discriminate].
Defined.

(** ** C7: what resolution leaves in place *)

(** C7, counterexample.  The job has a field [customer] next to
    [customerID].  Resolution replaces the value of [customer] by the
    fetched document: the job gains no field and an original field has
    lost its value.  All names being ASCII, this is so under every case
    table that agrees with the ASCII ones on ASCII text. *)
Lemma C7_existing_field_is_overwritten :
  dict_get "customer" job_j3 = Some (VStr "Acme Inc")
  /\ (forall U : CaseTables, agrees_on_ascii U ->
        @get_flattened_job_data U collision_db 10
        = @get_flattened_job_data ascii_tables collision_db 10)
  /\ get_flattened_job_data (U := ascii_tables) collision_db 10
     = [[("_id", VObjectId "j3"); ("customer", VDict customer_c1);
         ("customerID", VObjectId "c1")]]
  /\ forall job, In job (get_flattened_job_data (U := ascii_tables) collision_db 10) ->
       keys job = keys job_j3
       /\ dict_get "customer" job <> dict_get "customer" job_j3.
Proof.
  split; [reflexivity|]. split; [|split; [reflexivity|]].
  - intros U HU. unfold get_flattened_job_data.
    now rewrite (proj2 (proj2 (proj2 (scenarios_do_not_depend_on_the_tables U HU)))).
  - intros job [<-|[]]. split; [reflexivity | discriminate].
Qed.

(** C7, amended.  When the call succeeds, for every root document and the
    document returned for it: no field is removed and every [...ID] and
    [...IDs] field keeps its value; at most one field is added for each
    reference-convention field, after the fields of the root; a root with no
    reference-convention field is returned unchanged, without any accessor
    call.  For a root whose only reference-convention field is a single
    reference with a matching document: if the derived name is not yet a
    field of the root, the document returned is the root with exactly one
    new field, holding the fetched document as the level-2 pass left it,
    which is the fetched document itself when that has no
    reference-convention field; if the derived name is already a field of
    the root, the value of that field is replaced and no field is added. *)
Theorem C7_reference_fields_are_kept {U : CaseTables}
    (db : Accessor) (limit : Z) (jobs jobs' : list dict)
    (Htables : lower_has_no_D U)
    (Hagg : aggregate db limit = inr jobs)
    (Hok : outcome (resolve_jobs db limit) = inr jobs') :
  get_flattened_job_data db limit = jobs'
  /\ Forall2
       (fun job job' =>
          (forall k, not_reference_key k = false -> dict_get k job' = dict_get k job)
          /\ (forall k, In k (keys job) -> In k (keys job'))
          /\ (exists extra,
                 keys job' = keys job ++ extra
                 /\ List.length extra <= List.length (reference_fields job))
          /\ (Forall plain_field job ->
              job' = job /\ resolve_job db job = ([], inr job))
          /\ (forall names base before after oid f d,
              list_collection_names db = inr names ->
              base <> EmptyString ->
              mem (capitalize base) names = true ->
              job = before ++ ((base ++ "ID")%string, VObjectId oid) :: after ->
              Forall plain_field before -> Forall plain_field after ->
              find_one db (capitalize base) (VObjectId oid) = inr (Some (f :: d)) ->
              exists d',
                outcome (resolve_level2 db (f :: d)) = inr d'
                /\ job' = dict_set (str_lower base) (VDict d') job
                /\ (~ In (str_lower base) (keys job) ->
                    job' = job ++ [(str_lower base, VDict d')])
                /\ (In (str_lower base) (keys job) ->
                    keys job' = keys job
                    /\ dict_get (str_lower base) job' = Some (VDict d'))
                /\ (Forall plain_field (f :: d) -> d' = f :: d)))
       jobs jobs'.
Proof.
  destruct (resolve_jobs_pairs db limit jobs jobs' Hagg Hok) as [Hres Hpairs].
  split; [exact Hres|].
  eapply Forall2_impl; [|exact Hpairs]. intros job job' H.
  unfold resolve_job in H. repeat apply conj.
  - intros k Hk.
    apply (loop_get (level1_field db) (level1_effect db) _ _ _ _ H).
    intros it _ E. rewrite <- E, attach_name_not_reference in Hk by exact Htables.
    discriminate.
  - intros k. apply (loop_keys (level1_field db) (level1_effect db) _ _ _ _ H).
  - exact (ref_loop_growth (level1_field db)
             (fun a b c => level1_effect_reference db a c b) _ _ _ H).
  - intros Hflat. unfold resolve_job.
    rewrite (foldM_level1_skip db job job Hflat) in *.
    cbn in H. injection H as <-. split; reflexivity.
  - intros names base before after oid f d Hlist Hbase Hknown -> Hb Ha F.
    destruct (outer_loop_single db names Hlist base Hbase Hknown _ _ _ _ _ _ _ F H)
      as (d' & Hd' & _ & Hset).
    specialize (Hset Hb Ha). exists d'.
    split; [exact Hd'|]. split; [exact Hset|]. split; [|split].
    + intros Hnew. rewrite Hset. now apply dict_set_new.
    + intros Hold. rewrite Hset. split.
      * now apply dict_set_keys_present.
      * apply dict_get_set_same.
    + intros Hflat. unfold resolve_level2 in Hd'.
      rewrite (foldM_level2_skip db _ _ Hflat) in Hd'. cbn in Hd'. now injection Hd' as <-.
Qed.

Lemma C7_reference_fields_are_kept_witness :
  get_flattened_job_data (U := ascii_tables) scenario_db 10
  = [job_j1
     ++ [("joblocation", VDict (location_loc1 ++ [("customer", VDict customer_c1)]))]]
  /\ dict_get "jobLocationID"
       (job_j1
        ++ [("joblocation", VDict (location_loc1 ++ [("customer", VDict customer_c1)]))])
     = dict_get "jobLocationID" job_j1.
Proof.
  pose proof (C7_reference_fields_are_kept (U := ascii_tables) scenario_db 10
                [job_j1] _ ascii_tables_no_D eq_refl eq_refl) as (H1 & H2).
  split; [exact H1|].
  inversion H2 as [|job job' l l' (Hk & _) _]; subst.
  now apply Hk.
Defined.

(** ** C8: sequences in the flattener *)

(** C8.  Let a document have a sequence [l] at key [k], after the fields
    [before] and ahead of the fields [after].  The flattener first runs over
    [before], then emits the key [new_key ++ "_count"] (where [new_key] is
    [prefix_k], or [k] under the empty prefix) with the length of [l], and
    then runs over [after].  The count is in the result of the iteration,
    and in the result of the whole call unless a later field writes the same
    key.  When [l] starts with a document, the iteration goes on to flatten
    the elements at indices 0, 1 and 2, and no other, under the prefixes
    [new_key_0], [new_key_1], [new_key_2]; otherwise it emits nothing else.
    The iteration leaves every key alone that is neither the count nor below
    one of these three prefixes.  A sequence of five nested documents yields
    a count of 5 and sub-fields for the indices 0, 1 and 2 only. *)
Theorem C8_sequence_count_and_first_three
    (before after : dict) (prefix k : string) (l : list bson) (result : option dict) :
  let new_key := join_key prefix k in
  let count_key := (new_key ++ "_count")%string in
  let len := VInt (Z.of_nat (List.length l)) in
  let sofar := flatten_nested_document (VDict before) prefix result in
  let counted := dict_set count_key len sofar in
  let out := flatten_nested_document (VDict (before ++ [(k, VList l)])) prefix result in
  flatten_nested_document (VDict (before ++ (k, VList l) :: after)) prefix result
  = flatten_nested_document (VDict after) prefix (Some out)
  /\ dict_get count_key out = Some len
  /\ ((forall key value, In (key, value) after ->
         join_key prefix key <> EmptyString
         /\ count_key <> join_key prefix key
         /\ ~ below (join_key prefix key) count_key) ->
      dict_get count_key
        (flatten_nested_document (VDict (before ++ (k, VList l) :: after)) prefix result)
      = Some len)
  /\ (forall d0 rest, l = VDict d0 :: rest ->
      out = fold_left
              (fun r '(i, item) =>
                 flatten_nested_document item
                   (new_key ++ "_" ++ Str.of_nat i)%string (Some r))
              (enumerate (firstn 3 l)) counted)
  /\ (forall a b c rest, l = a :: b :: c :: rest -> is_dict a = true ->
      out = flatten_nested_document c (new_key ++ "_2")%string
              (Some (flatten_nested_document b (new_key ++ "_1")%string
                 (Some (flatten_nested_document a (new_key ++ "_0")%string
                    (Some counted))))))
  /\ (l = [] \/ (exists a rest, l = a :: rest /\ is_dict a = false) -> out = counted)
  /\ (forall key,
      key <> count_key ->
      (forall i s, i < 3 -> key <> (new_key ++ "_" ++ Str.of_nat i ++ "_" ++ s)%string) ->
      dict_get key out = dict_get key sofar)
  /\ (flatten_nested_document five_parts "" None
      = [("no", VStr "J-001"); ("parts_count", VInt 5); ("parts_0_n", VInt 10);
         ("parts_1_n", VInt 11); ("parts_2_n", VInt 12)]).
Proof.
  intros new_key count_key len sofar counted out.
  assert (Hout : out = flatten_field prefix sofar (k, VList l)).
  { subst out sofar. rewrite flatten_app. now rewrite (flatten_dict_eq [_]). }
  assert (Hwhole :
            flatten_nested_document (VDict (before ++ (k, VList l) :: after)) prefix result
            = flatten_nested_document (VDict after) prefix (Some out)).
  { subst out. change (before ++ (k, VList l) :: after)
      with (before ++ [(k, VList l)] ++ after).
    now rewrite List.app_assoc, flatten_app. }
  assert (Hcount : dict_get count_key out = Some len).
  { rewrite Hout. unfold flatten_field. fold new_key. fold count_key. fold len.
    fold counted.
    assert (C : dict_get count_key counted = Some len) by apply dict_get_set_same.
    destruct l as [|[| | | | |d0|l0] rest]; try exact C.
    rewrite flatten_first3_untouched; [exact C| |].
    + apply Forall_forall. intros x _. apply flatten_writes_below.
    + intros i s Hi E. apply StrFacts.app_inv_head in E.
      destruct i as [|[|[|i]]]; [discriminate E .. | lia]. }
  repeat apply conj.
  - exact Hwhole.
  - exact Hcount.
  - intros Hafter. rewrite Hwhole, flatten_dict_eq. cbn [or_empty].
    now rewrite flatten_fields_untouched.
  - intros d0 rest E. rewrite Hout. subst counted len. rewrite E. reflexivity.
  - intros a b c rest E Ha. rewrite Hout. subst counted len. rewrite E.
    destruct a; try discriminate. reflexivity.
  - intros [E|(a & rest & E & Ha)]; rewrite Hout; subst counted len; rewrite E;
      [reflexivity|].
    destruct a; try discriminate; reflexivity.
  - intros key Hkey Hsub. rewrite Hout. unfold flatten_field.
    fold new_key. fold count_key. fold len. fold counted.
    assert (C : dict_get key counted = dict_get key sofar)
      by (apply dict_get_set_other; exact Hkey).
    destruct l as [|[| | | | |d0|l0] rest]; try exact C.
    rewrite flatten_first3_untouched; [exact C| |exact Hsub].
    apply Forall_forall. intros x _. apply flatten_writes_below.
  - reflexivity.
Qed.

Lemma C8_sequence_count_and_first_three_witness :
  flatten_nested_document
    (VDict [("no", VStr "J-001");
            ("parts", VList [part 10; part 11; part 12; part 13; part 14])]) "" None
  = flatten_nested_document (part 12) "parts_2"
      (Some (flatten_nested_document (part 11) "parts_1"
         (Some (flatten_nested_document (part 10) "parts_0"
            (Some [("no", VStr "J-001"); ("parts_count", VInt 5)]))))).
Proof.
  refine (proj1 (proj2 (proj2 (proj2 (proj2
           (C8_sequence_count_and_first_three [("no", VStr "J-001")] [] ""
              "parts" [part 10; part 11; part 12; part 13; part 14] None)))))
            (part 10) (part 11) (part 12) [part 13; part 14] _ _); reflexivity.
Defined.

(** ** C9: flat documents *)

(** C9.  For a document whose values are all scalars (no nested document,
    no sequence), [flatten_nested_document] with the empty prefix returns a
    mapping with the same keys and the same values, in the same order. *)
Theorem C9_flat_document_is_returned_as_is
    (d : dict)
    (Hkeys : NoDup (keys d))
    (Hflat : Forall (fun kv => is_scalar (snd kv) = true) d) :
  flatten_nested_document (VDict d) "" None = d.
Proof.
  rewrite flatten_dict_eq. cbn [or_empty].
  now rewrite flatten_flat_fields.
Qed.

Lemma C9_flat_document_is_returned_as_is_witness :
  flatten_nested_document (VDict flat_job) "" None = flat_job.
Proof.
  apply C9_flat_document_is_returned_as_is.
  - repeat constructor; cbn; intuition discriminate.
  - repeat constructor.
Defined.

(** ** C10: a field named [ID] or [IDs] *)

(** C10.  Deriving the collection name for a field named exactly [ID] or
    [IDs] raises [IndexError] before any accessor call.  If a root document
    of the batch has such a field, the [try] block ends in an exception and
    [get_flattened_job_data] returns the empty list, whatever the other
    documents of the batch are. *)
Theorem C10_field_named_ID_discards_the_batch {U : CaseTables}
    (db : Accessor) (limit : Z) (jobs : list dict) (job : dict)
    (Hagg : aggregate db limit = inr jobs)
    (Hjob : In job jobs)
    (Hkey : In "ID" (keys job) \/ In "IDs" (keys job)) :
  (forall doc value,
      level1_field db doc ("ID", value) = ([], inl IndexError)
      /\ level1_field db doc ("IDs", value) = ([], inl IndexError))
  /\ (exists e, outcome (resolve_jobs db limit) = inl e)
  /\ get_flattened_job_data db limit = [].
Proof.
  assert (R : exists e, outcome (resolve_jobs db limit) = inl e).
  { unfold resolve_jobs. rewrite outcome_bind. cbn [do_aggregate outcome snd].
    rewrite Hagg. apply (mapM_raises _ _ job Hjob).
    unfold resolve_job.
    assert (exists it, In it job /\ (fst it = "ID" \/ fst it = "IDs")) as (it & Hit & Hk).
    { unfold keys in Hkey. destruct Hkey as [H|H];
        apply in_map_iff in H as (it & E & Hit); exists it; auto. }
    apply (foldM_raises _ _ it Hit). intros s. exists IndexError.
    destruct it as [key value]. cbn [fst] in Hk. destruct Hk as [->| ->]; reflexivity. }
  repeat apply conj.
  - intros doc value. split; reflexivity.
  - exact R.
  - unfold get_flattened_job_data. now destruct R as [e ->].
Qed.

Lemma C10_field_named_ID_discards_the_batch_witness :
  get_flattened_job_data (U := ascii_tables) batch_db 10 = [].
Proof.
  refine (proj2 (proj2 (C10_field_named_ID_discards_the_batch (U := ascii_tables)
                          batch_db 10
                          [job_j1; job_j5] job_j5 eq_refl _ _))).
  - right. left. reflexivity.
  - left. right. left. reflexivity.
Defined.

(** * Further properties *)

(** ** Assignments in a loop *)

Lemma dict_set_NoDup (k : string) (v : bson) (d : dict) :
  NoDup (keys d) -> NoDup (keys (dict_set k v d)).
Proof.
  destruct (in_dec string_dec k (keys d)) as [Hin|Hnot].
  - now rewrite dict_set_keys_present.
  - intros Hd. rewrite dict_set_new by assumption.
    unfold keys. rewrite map_app. cbn.
    apply NoDup_app; [assumption | repeat constructor; auto |].
    intros x Hx [<-|[]]. contradiction.
Qed.

(** A loop that assigns, for each item in turn, a value computed from the
    item under the key of the item, builds the image of the items when the
    keys are distinct. *)
Lemma fold_dict_set_map (g : string -> bson -> bson) (d acc : dict) :
  NoDup (keys acc ++ keys d) ->
  fold_left (fun r it => dict_set (fst it) (g (fst it) (snd it)) r) d acc
  = acc ++ map (fun it => (fst it, g (fst it) (snd it))) d.
Proof.
  revert acc. induction d as [|[k v] d IH]; intros acc Hnd.
  - cbn. now rewrite app_nil_r.
  - cbn [fold_left map fst snd]. rewrite dict_set_new.
    + rewrite IH.
      * now rewrite <- List.app_assoc.
      * unfold keys in *. rewrite map_app, <- List.app_assoc. exact Hnd.
    + apply NoDup_remove_2 in Hnd. intros Hin. apply Hnd.
      apply in_or_app. now left.
Qed.

(** ** What the flattener keeps true of [result] *)

Section FlattenInvariant.

Variable P : dict -> Prop.
Hypothesis P_set : forall k v r, is_scalar v = true -> P r -> P (dict_set k v r).

Lemma flatten_first3_keeps (new_key : string) (l : list bson) (r : dict) :
  Forall (keeps P) l -> P r -> P (flatten_first3 new_key l r).
Proof.
  intros Hl. unfold flatten_first3, enumerate.
  assert (Hf : Forall (keeps P) (firstn 3 l)).
  { rewrite <- (firstn_skipn 3 l) in Hl. now apply Forall_app in Hl. }
  revert Hf. generalize (firstn 3 l) as es. generalize 0. clear Hl.
  intros i es. revert i r. induction es as [|e es IH]; intros i r He Hr; [exact Hr|].
  inversion He as [|? ? He1 He2]; subst. cbn [List.length seq combine fold_left].
  apply IH; [assumption|]. now apply He1.
Qed.

Lemma flatten_keeps (v : bson) :
  keeps P v /\ (forall l, v = VList l -> Forall (keeps P) l).
Proof.
  induction v as [| | | | | d IH | l IH] using bson_rect_nested;
    try (split; [intros prefix r Hr; exact Hr | discriminate]).
  - split; [|discriminate].
    intros prefix r Hr. rewrite flatten_dict_eq. cbn [or_empty].
    revert r Hr. induction IH as [|[key value] d [Hv Hl] _ IHd]; intros r Hr; [exact Hr|].
    cbn [fold_left]. apply IHd. cbn [snd] in *. unfold flatten_field.
    destruct value as [| | | | |d0|l0]; try (apply P_set; [reflexivity | exact Hr]).
    + now apply Hv.
    + assert (Hc : P (dict_set (join_key prefix key ++ "_count")%string
                        (VInt (Z.of_nat (List.length l0))) r))
        by (apply P_set; [reflexivity | exact Hr]).
      destruct l0 as [|[| | | | |d1|l1] l0]; try exact Hc.
      apply flatten_first3_keeps; [now apply Hl | exact Hc].
  - split.
    + intros prefix r Hr; exact Hr.
    + intros l0 [= <-]. eapply Forall_impl; [|exact IH]. now intros a [Ha _].
Qed.

End FlattenInvariant.

Lemma flatten_None (v : bson) (prefix : string) :
  flatten_nested_document v prefix None = flatten_nested_document v prefix (Some []).
Proof. destruct v; reflexivity. Qed.

Lemma flat_dict_set (k : string) (v : bson) (r : dict) :
  is_scalar v = true -> flat_dict r -> flat_dict (dict_set k v r).
Proof.
  intros Hv Hr. apply Forall_forall. intros [k' v'] Hin.
  apply dict_set_In in Hin as [[= -> ->]|Hin]; [exact Hv|].
  unfold flat_dict in Hr. rewrite Forall_forall in Hr. exact (Hr _ Hin).
Qed.

Lemma flatten_flat (v : bson) (prefix : string) (result : option dict) :
  flat_dict (or_empty result) -> flat_dict (flatten_nested_document v prefix result).
Proof.
  intros Hr. destruct result as [r|].
  - apply (flatten_keeps flat_dict flat_dict_set v); exact Hr.
  - rewrite flatten_None.
    apply (flatten_keeps flat_dict flat_dict_set v). constructor.
Qed.

Lemma flatten_NoDup (v : bson) (prefix : string) (result : option dict) :
  NoDup (keys (or_empty result)) ->
  NoDup (keys (flatten_nested_document v prefix result)).
Proof.
  intros Hr. destruct result as [r|].
  - apply (flatten_keeps (fun r => NoDup (keys r))
             (fun k v r _ => dict_set_NoDup k v r) v); exact Hr.
  - rewrite flatten_None.
    apply (flatten_keeps (fun r => NoDup (keys r))
             (fun k v r _ => dict_set_NoDup k v r) v). constructor.
Qed.

(** A scalar field of a dictionary reaches the output under its own path
    unless another field name of the dictionary, followed by an underscore,
    starts its name. *)
Lemma flatten_scalar_survives
    (prefix : string) (d : dict) (r : dict) (f : string) (v : bson) :
  NoDup (keys d) ->
  (prefix = EmptyString -> ~ In EmptyString (keys d)) ->
  In (f, v) d -> is_scalar v = true ->
  (forall f', In f' (keys d) -> ~ below f' f) ->
  dict_get (join_key prefix f) (flatten_nested_document (VDict d) prefix (Some r))
  = Some v.
Proof.
  intros Hnd Hne Hin Hv Hsh. rewrite flatten_dict_eq. cbn [or_empty].
  apply in_split in Hin as (before & after & ->).
  rewrite fold_left_app. cbn [fold_left].
  rewrite flatten_fields_untouched.
  - unfold flatten_field. destruct v; try discriminate; apply dict_get_set_same.
  - intros key value Hkv.
    assert (Hk : In key (keys (before ++ (f, v) :: after))).
    { unfold keys. rewrite map_app. apply in_or_app. right. right.
      now apply (in_map fst) in Hkv. }
    repeat split.
    + apply join_key_not_empty. intros E ->. now apply (Hne E).
    + intros E. apply join_key_inj in E. subst key.
      unfold keys in Hnd. rewrite map_app in Hnd. cbn in Hnd.
      apply NoDup_remove_2 in Hnd. apply Hnd. apply in_or_app. right.
      now apply (in_map fst) in Hkv.
    + intros B. apply join_key_below_inv in B. exact (Hsh key Hk B).
Qed.

(** ** The flattener: further properties *)

(** X1.  The output of [flatten_nested_document] has no nested structure:
    when the dictionary it writes to holds scalars only (in particular when
    [result] is omitted), every value of the output is a scalar. *)
Theorem X1_flatten_output_is_flat
    (doc : bson) (prefix : string) (result : option dict)
    (Hresult : flat_dict (or_empty result)) :
  flat_dict (flatten_nested_document doc prefix result).
Proof.
  destruct result as [r|]; cbn [or_empty] in Hresult.
  - exact (proj1 (flatten_keeps flat_dict flat_dict_set doc) prefix r Hresult).
  - rewrite flatten_None.
    exact (proj1 (flatten_keeps flat_dict flat_dict_set doc) prefix [] Hresult).
Qed.

Lemma X1_flatten_output_is_flat_witness :
  flat_dict (flatten_nested_document five_parts "" None).
Proof.
  apply (X1_flatten_output_is_flat five_parts "" None). constructor.
Defined.

(** X2.  Flattening is idempotent: flattening the output of
    [flatten_nested_document] again, with the empty prefix, returns that
    output. *)
Theorem X2_flatten_is_idempotent (doc : bson) (prefix : string) :
  flatten_nested_document
    (VDict (flatten_nested_document doc prefix None)) "" None
  = flatten_nested_document doc prefix None.
Proof.
  rewrite flatten_dict_eq. cbn [or_empty].
  rewrite flatten_flat_fields; [reflexivity | |].
  - cbn [keys map app]. apply (flatten_NoDup doc prefix None). constructor.
  - apply (flatten_flat doc prefix None). constructor.
Qed.

(** X3.  Under a non-empty prefix the flattener writes below the prefix
    only: an entry of [result] whose key is not the prefix followed by an
    underscore keeps its value, and every key of the output is a key of
    [result] or the prefix followed by an underscore and more. *)
Theorem X3_flatten_writes_below_the_prefix
    (doc : bson) (prefix : string) (result : dict)
    (Hprefix : prefix <> EmptyString) :
  (forall k, ~ below prefix k ->
     dict_get k (flatten_nested_document doc prefix (Some result)) = dict_get k result)
  /\ (forall k, In k (keys (flatten_nested_document doc prefix (Some result))) ->
        In k (keys result) \/ below prefix k).
Proof.
  assert (H : forall k, ~ below prefix k ->
            dict_get k (flatten_nested_document doc prefix (Some result))
            = dict_get k result).
  { intros k Hk. apply flatten_writes_below; [exact Hprefix|].
    intros s E. apply Hk. now exists s. }
  split; [exact H|].
  intros k Hin. destruct (below_dec prefix k) as [B|B]; [now right|left].
  destruct (in_dec string_dec k (keys result)) as [Hr|Hr]; [exact Hr|].
  exfalso. apply dict_get_None in Hr. rewrite <- (H k B) in Hr.
  apply dict_get_None in Hr. contradiction.
Qed.

Lemma X3_flatten_writes_below_the_prefix_witness :
  dict_get "no" (flatten_nested_document five_parts "job" (Some [("no", VInt 7)]))
  = Some (VInt 7).
Proof.
  refine (proj1 (X3_flatten_writes_below_the_prefix five_parts "job"
                   [("no", VInt 7)] _) "no" _).
  - discriminate.
  - intros [s E]. discriminate.
Defined.

(** X4.  A scalar field of a document appears in the flattened row under
    its own name with its own value, provided field names are distinct and
    not empty and no field name of the document followed by an underscore
    starts the name of the field. *)
Theorem X4_scalar_field_keeps_its_column
    (d : dict) (f : string) (v : bson)
    (Hkeys : NoDup (keys d))
    (Hnames : ~ In EmptyString (keys d))
    (Hfield : In (f, v) d)
    (Hscalar : is_scalar v = true)
    (Hclear : forall f', In f' (keys d) -> ~ below f' f) :
  dict_get f (flatten_nested_document (VDict d) "" None) = Some v.
Proof.
  rewrite flatten_None.
  exact (flatten_scalar_survives "" d [] f v Hkeys (fun _ => Hnames) Hfield Hscalar Hclear).
Qed.

Lemma X4_scalar_field_keeps_its_column_witness :
  dict_get "jobLocationID"
    (flatten_nested_document
       (VDict (job_j1
               ++ [("joblocation",
                    VDict (location_loc1 ++ [("customer", VDict customer_c1)]))]))
       "" None)
  = Some (VObjectId "loc1").
Proof.
  apply X4_scalar_field_keeps_its_column.
  - repeat constructor; cbn; intuition discriminate.
  - cbn; intuition discriminate.
  - right. left. reflexivity.
  - reflexivity.
  - intros f' Hf' [s E]. cbn in Hf'.
    repeat (destruct Hf' as [<-|Hf']; [cbn in E; discriminate E|]). contradiction.
Defined.

(** X5.  A scalar field [f] of a document nested under the field [n]
    appears in the flattened row as [n_f] with its value, provided the
    field names of both documents are distinct, those of the outer one are
    not empty, no field name of the nested document followed by an
    underscore starts [f], and no other field name of the outer document is
    [n_f] or, followed by an underscore, starts [n_f]. *)
Theorem X5_nested_field_column
    (d : dict) (n : string) (nested : dict) (f : string) (v : bson)
    (Hkeys : NoDup (keys d))
    (Hnames : ~ In EmptyString (keys d))
    (Hnested : In (n, VDict nested) d)
    (Hkeys' : NoDup (keys nested))
    (Hfield : In (f, v) nested)
    (Hscalar : is_scalar v = true)
    (Hclear' : forall f', In f' (keys nested) -> ~ below f' f)
    (Hclear : forall k', In k' (keys d) -> k' <> n ->
                (n ++ "_" ++ f)%string <> k' /\ ~ below k' (n ++ "_" ++ f)%string) :
  dict_get (n ++ "_" ++ f)%string (flatten_nested_document (VDict d) "" None) = Some v.
Proof.
  assert (Hn : n <> EmptyString).
  { intros ->. apply Hnames. now apply (in_map fst) in Hnested. }
  rewrite flatten_None, flatten_dict_eq. cbn [or_empty].
  apply in_split in Hnested as (before & after & ->).
  rewrite fold_left_app. cbn [fold_left].
  rewrite flatten_fields_untouched.
  - cbn [flatten_field join_key].
    rewrite <- (join_key_nonempty n f Hn).
    apply flatten_scalar_survives; try assumption. intros E. contradiction.
  - intros key value Hkv.
    assert (Hk : In key (keys (before ++ (n, VDict nested) :: after))).
    { unfold keys. rewrite map_app. apply in_or_app. right. right.
      now apply (in_map fst) in Hkv. }
    assert (Hkn : key <> n).
    { intros ->. unfold keys in Hkeys. rewrite map_app in Hkeys. cbn in Hkeys.
      apply NoDup_remove_2 in Hkeys. apply Hkeys. apply in_or_app. right.
      now apply (in_map fst) in Hkv. }
    destruct (Hclear key Hk Hkn) as [H1 H2]. cbn [join_key].
    repeat split; try assumption. intros ->. contradiction.
Qed.

Lemma X5_nested_field_column_witness :
  dict_get "joblocation_name"
    (flatten_nested_document
       (VDict (job_j1
               ++ [("joblocation",
                    VDict (location_loc1 ++ [("customer", VDict customer_c1)]))]))
       "" None)
  = Some (VStr "Site A").
Proof.
  apply (X5_nested_field_column _ "joblocation"
           (location_loc1 ++ [("customer", VDict customer_c1)]) "name").
  - repeat constructor; cbn; intuition discriminate.
  - cbn; intuition discriminate.
  - right. right. left. reflexivity.
  - repeat constructor; cbn; intuition discriminate.
  - right. right. left. reflexivity.
  - reflexivity.
  - intros f' Hf' [s E]. cbn in Hf'.
    repeat (destruct Hf' as [<-|Hf']; [cbn in E; discriminate E|]). contradiction.
  - intros k' Hk' Hn. cbn in Hk'.
    repeat (destruct Hk' as [<-|Hk'];
            [first [ exfalso; apply Hn; reflexivity
                   | split; [discriminate|intros [s E]; cbn in E; discriminate E] ]|]).
    contradiction.
Defined.

(** ** [simplify_object] *)

Section SimplifyFacts.

Variable repr : bson -> string.

Lemma simplify_field_eq (simplified : dict) (key : string) (value : bson) :
  simplify_field repr simplified (key, value)
  = dict_set key (simplified_value repr key value) simplified.
Proof.
  unfold simplify_field, simplified_value.
  destruct (String.eqb key "_id"); [reflexivity|].
  destruct value as [| | | | |d|[|[] l]]; reflexivity.
Qed.

Lemma simplify_fold_eq (d acc : dict) :
  fold_left (simplify_field repr) d acc
  = fold_left (fun r it => dict_set (fst it) (simplified_value repr (fst it) (snd it)) r)
      d acc.
Proof.
  revert acc. induction d as [|[k v] d IH]; intros acc; [reflexivity|].
  cbn [fold_left fst snd]. now rewrite simplify_field_eq, IH.
Qed.

(** On a dictionary with distinct keys the function maps each field to its
    simplified value. *)
Lemma simplify_object_map (d : dict) :
  NoDup (keys d) ->
  simplify_object repr (VDict d)
  = VDict (map (fun it => (fst it, simplified_value repr (fst it) (snd it))) d).
Proof.
  intros Hd. cbn [simplify_object]. rewrite simplify_fold_eq.
  now rewrite fold_dict_set_map.
Qed.

Lemma simplified_value_plain (key : string) (value : bson) :
  is_dict (simplified_value repr key value) = false
  /\ is_dict_list (simplified_value repr key value) = false.
Proof.
  unfold simplified_value. destruct (String.eqb key "_id"); [split; reflexivity|].
  destruct value as [| | | | |d|[|[] l]]; split; reflexivity.
Qed.

Lemma simplified_value_twice (key : string) (value : bson) :
  simplified_value repr key (simplified_value repr key value)
  = simplified_value repr key value.
Proof.
  unfold simplified_value. destruct (String.eqb key "_id"); [reflexivity|].
  destruct value as [| | | | |d|[|[] l]]; reflexivity.
Qed.

End SimplifyFacts.

(** X6.  [simplify_object] keeps the fields of a document: the output has
    the same keys in the same order, and every field other than [_id] whose
    value is neither a document nor a non-empty list starting with a
    document keeps its value. *)
Theorem X6_simplify_keeps_the_fields
    (repr : bson -> string) (d : dict)
    (Hkeys : NoDup (keys d)) :
  exists d',
    simplify_object repr (VDict d) = VDict d'
    /\ keys d' = keys d
    /\ forall k v, In (k, v) d -> k <> "_id" ->
         is_dict v = false -> is_dict_list v = false -> In (k, v) d'.
Proof.
  eexists. split; [now apply simplify_object_map|]. split.
  - unfold keys. rewrite map_map. reflexivity.
  - intros k v Hin Hk Hd Hl. apply in_map_iff. exists (k, v). split; [|exact Hin].
    cbn [fst snd]. f_equal. unfold simplified_value.
    apply String.eqb_neq in Hk. rewrite Hk.
    destruct v as [| | | | |d0|[|[] l]]; try reflexivity; discriminate.
Qed.

Lemma X6_simplify_keeps_the_fields_witness :
  exists d',
    simplify_object (fun _ => "") (VDict flat_job) = VDict d'
    /\ keys d' = keys flat_job
    /\ forall k v, In (k, v) flat_job -> k <> "_id" ->
         is_dict v = false -> is_dict_list v = false -> In (k, v) d'.
Proof.
  apply X6_simplify_keeps_the_fields.
  repeat constructor; cbn; intuition discriminate.
Defined.

(** X7.  The output of [simplify_object] on a document holds no nested
    document and no list of documents: no value is a dictionary or a
    non-empty list starting with a dictionary, and the value of [_id] is a
    string. *)
Theorem X7_simplify_output_is_plain (repr : bson -> string) (d : dict) :
  exists d',
    simplify_object repr (VDict d) = VDict d'
    /\ (forall k v, In (k, v) d' -> is_dict v = false /\ is_dict_list v = false)
    /\ (forall v, dict_get "_id" d' = Some v -> exists s, v = VStr s).
Proof.
  eexists. split; [reflexivity|].
  assert (G : forall items acc,
             (forall k v, In (k, v) acc ->
                is_dict v = false /\ is_dict_list v = false
                /\ (k = "_id" -> exists s, v = VStr s)) ->
             forall k v, In (k, v) (fold_left (simplify_field repr) items acc) ->
               is_dict v = false /\ is_dict_list v = false
               /\ (k = "_id" -> exists s, v = VStr s)).
  { induction items as [|[key value] items IH]; intros acc Hacc; [exact Hacc|].
    cbn [fold_left]. apply IH. intros k v Hin.
    rewrite simplify_field_eq in Hin.
    apply dict_set_In in Hin as [[= -> ->]|Hin]; [|now apply Hacc].
    destruct (simplified_value_plain repr key value) as [H1 H2].
    repeat split; try assumption.
    intros ->. unfold simplified_value. cbn. eauto. }
  split.
  - intros k v Hin. destruct (G d [] (fun _ _ F => match F with end) k v Hin) as (H1 & H2 & _).
    now split.
  - intros v Hget. apply dict_get_In in Hget.
    destruct (G d [] (fun _ _ F => match F with end) _ _ Hget) as (_ & _ & H3). now apply H3.
Qed.

Lemma X7_simplify_output_is_plain_witness :
  exists d',
    simplify_object (fun _ => "") (VDict flat_job) = VDict d'
    /\ (forall k v, In (k, v) d' -> is_dict v = false /\ is_dict_list v = false)
    /\ (forall v, dict_get "_id" d' = Some v -> exists s, v = VStr s).
Proof. exact (X7_simplify_output_is_plain (fun _ => "") flat_job). Defined.

(** The summaries on a resolved job: the identifier as a string, the nested
    document by its field names, the list of documents by its length. *)
Example simplify_summaries :
  simplify_object (fun _ => "")
    (VDict (job_j2
            ++ [("joblocation", VDict location_loc1);
                ("technicianprofiles", VList [VDict technician_t1; VDict technician_t1])]))
  = VDict [("_id", VStr "j2");
           ("technicianProfileIDs", VList [VObjectId "t1"; VObjectId "t2"]);
           ("joblocation", VStr "Object: _id, customerID, name");
           ("technicianprofiles", VStr "Array of 2 objects")].
Proof. reflexivity. Qed.

(** X8.  [simplify_object] is idempotent on a document with distinct
    keys. *)
Theorem X8_simplify_is_idempotent
    (repr : bson -> string) (d : dict)
    (Hkeys : NoDup (keys d)) :
  simplify_object repr (simplify_object repr (VDict d)) = simplify_object repr (VDict d).
Proof.
  rewrite (simplify_object_map repr d Hkeys).
  rewrite simplify_object_map.
  - f_equal. rewrite map_map. apply map_ext. intros [k v]. cbn [fst snd].
    now rewrite simplified_value_twice.
  - unfold keys. rewrite map_map. exact Hkeys.
Qed.

Lemma X8_simplify_is_idempotent_witness :
  simplify_object (fun _ => "")
    (simplify_object (fun _ => "")
       (VDict (job_j1
               ++ [("joblocation",
                    VDict (location_loc1 ++ [("customer", VDict customer_c1)]))])))
  = simplify_object (fun _ => "")
      (VDict (job_j1
              ++ [("joblocation",
                   VDict (location_loc1 ++ [("customer", VDict customer_c1)]))])).
Proof.
  apply X8_simplify_is_idempotent.
  repeat constructor; cbn; intuition discriminate.
Defined.

(** ** The resolver: calls *)

Lemma trace_bind {A B : Type} (m : M A) (f : A -> M B) :
  trace (bind m f)
  = match outcome m with
    | inl _ => trace m
    | inr a => trace m ++ trace (f a)
    end.
Proof. destruct m as [t [e|a]]; cbn; [reflexivity | now destruct (f a)]. Qed.

Section TraceFacts.

Variable P : call -> Prop.

Lemma all_bind {A B : Type} (m : M A) (f : A -> M B) :
  Forall P (trace m) -> (forall a, outcome m = inr a -> Forall P (trace (f a))) ->
  Forall P (trace (bind m f)).
Proof.
  intros Hm Hf. rewrite trace_bind. destruct (outcome m) as [e|a]; [exact Hm|].
  apply Forall_app. split; [exact Hm | now apply Hf].
Qed.

Lemma all_foldM {A S : Type} (body : S -> A -> M S) (l : list A) :
  (forall s a, In a l -> Forall P (trace (body s a))) ->
  forall s, Forall P (trace (foldM body l s)).
Proof.
  induction l as [|a l IH]; intros Hb s; [constructor|].
  cbn [foldM]. apply all_bind; [apply Hb; now left|].
  intros s' _. apply IH. intros; apply Hb; now right.
Qed.

Lemma all_mapM {A B : Type} (body : A -> M B) (l : list A) :
  (forall a, In a l -> Forall P (trace (body a))) -> Forall P (trace (mapM body l)).
Proof.
  induction l as [|a l IH]; intros Hb; [constructor|].
  cbn [mapM]. apply all_bind; [apply Hb; now left|].
  intros b _. apply all_bind; [apply IH; intros; apply Hb; now right|].
  intros bs _. constructor.
Qed.

End TraceFacts.

Section Targets.

Context {U : CaseTables}.
Variable db : Accessor.
Variable names : list string.
Hypothesis listing : list_collection_names db = inr names.

#[local] Ltac open_trace key value :=
  unfold level1_field, level2_field;
  destruct (not_reference_key key); [constructor|];
  destruct (split_key key) as [b [|]];
  (destruct b as [|c r]; [constructor|]);
  change (collection_name_of (String c r)) with (ret (capitalize (String c r)));
  rewrite bind_ret_l;
  (apply all_bind; [repeat constructor|]);
  unfold do_list_collection_names; cbn [outcome snd]; rewrite listing;
  intros ? [= <-];
  (destruct (mem _ names) eqn:K; cbn [negb]; [|constructor]);
  destruct value; try constructor.

Lemma level2_field_targets (d : dict) (item : string * bson) :
  Forall (well_targeted names) (trace (level2_field db d item)).
Proof.
  destruct item as [key value]. open_trace key value.
  - apply all_bind; [repeat constructor; exact K|]. intros; constructor.
  - apply all_bind; [repeat constructor; cbn; eauto|].
    intros [[|f d2]|] _; constructor.
Qed.

Lemma level1_field_targets (job : dict) (item : string * bson) :
  Forall (well_targeted names) (trace (level1_field db job item)).
Proof.
  destruct item as [key value]. open_trace key value.
  - apply all_bind; [repeat constructor; exact K|]. intros; constructor.
  - apply all_bind; [repeat constructor; cbn; eauto|].
    intros [[|f d1]|] _; try constructor.
    cbn [truthy]. apply all_bind; [|intros; constructor].
    apply all_foldM. intros; apply level2_field_targets.
Qed.

End Targets.

(** X9.  The resolver queries only collections that exist: when the
    listing of the collection names returns [names], every batch fetch and
    every point lookup it makes goes to a collection of [names], and every
    point lookup is made with an [ObjectId]. *)
Theorem X9_only_listed_collections_are_queried {U : CaseTables}
    (db : Accessor) (names : list string) (limit : Z)
    (Hlist : list_collection_names db = inr names) :
  Forall (well_targeted names) (trace (resolve_jobs db limit)).
Proof.
  unfold resolve_jobs. apply all_bind; [repeat constructor|].
  intros jobs _. apply all_mapM. intros job _.
  apply all_foldM. intros; now apply level1_field_targets.
Qed.

Lemma X9_only_listed_collections_are_queried_witness :
  Forall (well_targeted ["Job"; "JobLocation"; "Customer"; "Region"])
    (trace (resolve_jobs (U := ascii_tables) chain_db 10)).
Proof.
  apply X9_only_listed_collections_are_queried. reflexivity.
Defined.

Lemma foldM_level1_extends {U : CaseTables} (db : Accessor) (items : dict) (job s s' : dict) :
  (forall it, In it items -> In it job) ->
  outcome (foldM (level1_field db) items s) = inr s' ->
  (exists extra, keys s = keys job ++ extra
     /\ Forall (fun n => exists it, In it job /\ not_reference_key (fst it) = false
                                    /\ n = attach_name (fst it)) extra) ->
  extends job s'.
Proof.
  revert s. induction items as [|it items IH]; intros s Hsub H Hs.
  - cbn in H. injection H as <-. exact Hs.
  - cbn [foldM] in H. apply bind_inr in H as (s1 & H1 & H).
    apply (IH s1); [intros; apply Hsub; now right | exact H |].
    apply level1_effect_reference in H1 as [->|(K & x & ->)]; [exact Hs|].
    destruct Hs as (extra & Hk & Hextra).
    destruct (dict_set_keys (attach_name (fst it)) x s) as [E|E]; rewrite E.
    + now exists extra.
    + exists (extra ++ [attach_name (fst it)]). split.
      * now rewrite Hk, List.app_assoc.
      * apply Forall_app. split; [exact Hextra|]. constructor; [|constructor].
        exists it. repeat split; [apply Hsub; now left | exact K].
Qed.

(** X10.  [get_flattened_job_data] returns the empty list or one document
    for each root document of the aggregation, in the same order.  Each is
    what resolving its own root document gives, whatever the other documents
    of the batch are, and is the root document with fields assigned: the
    root's keys come first, in their order, and the keys after them are
    names derived from reference fields of the root. *)
Theorem X10_one_extended_document_per_root {U : CaseTables} (db : Accessor) (limit : Z) :
  get_flattened_job_data db limit = []
  \/ exists jobs,
       aggregate db limit = inr jobs
       /\ Forall2 (fun job job' =>
                     outcome (resolve_job db job) = inr job' /\ extends job job')
            jobs (get_flattened_job_data db limit).
Proof.
  unfold get_flattened_job_data.
  destruct (outcome (resolve_jobs db limit)) as [e|jobs'] eqn:R; [now left|right].
  unfold resolve_jobs in R. apply bind_inr in R as (jobs & A & R).
  exists jobs. split; [exact A|].
  apply mapM_inr_Forall2 in R. eapply Forall2_impl; [|exact R].
  intros job job' H. split; [exact H|]. unfold resolve_job in H.
  apply (foldM_level1_extends db job job job job'); auto.
  exists []. split; [now rewrite app_nil_r | constructor].
Qed.

(** X11.  Resolution changes a field of a root document only if its name is
    the name derived from one of the document's reference fields: every
    other field, and every name that is absent, is as in the root
    document. *)
Theorem X11_only_derived_names_are_assigned {U : CaseTables}
    (db : Accessor) (job job' : dict) (k : string)
    (Hres : outcome (resolve_job db job) = inr job')
    (Hname : forall it, In it job -> not_reference_key (fst it) = false ->
               attach_name (fst it) <> k) :
  dict_get k job' = dict_get k job.
Proof.
  unfold resolve_job in Hres. revert Hres Hname.
  generalize job at 2 4. generalize job at 1 2.
  intros items. induction items as [|it items IH]; intros s Hres Hname.
  - cbn in Hres. now injection Hres as <-.
  - cbn [foldM] in Hres. apply bind_inr in Hres as (s1 & H1 & H).
    rewrite (IH _ H) by (intros; apply Hname; [now right | assumption]).
    apply level1_effect_reference in H1 as [->|(K & x & ->)]; [reflexivity|].
    apply dict_get_set_other. intros E. apply (Hname it); [now left | exact K | now symmetry].
Qed.

Lemma X11_only_derived_names_are_assigned_witness :
  dict_get "customerID"
    [("_id", VObjectId "j3"); ("customer", VDict customer_c1);
     ("customerID", VObjectId "c1")]
  = dict_get "customerID" job_j3.
Proof.
  apply (X11_only_derived_names_are_assigned (U := ascii_tables) collision_db job_j3).
  - reflexivity.
  - intros it Hit K. cbn in Hit.
    repeat (destruct Hit as [<-|Hit]; [try discriminate K; cbn; discriminate|]).
    contradiction.
Defined.

(** ** The resolver: number of calls *)

Lemma fetches_app (a b : list call) : fetches (a ++ b) = fetches a + fetches b.
Proof. unfold fetches. now rewrite filter_app, length_app. Qed.

Lemma fetches_cons (c : call) (t : list call) :
  fetches (c :: t) = (if is_fetch c then 1 else 0) + fetches t.
Proof. unfold fetches. cbn [filter]. now destruct (is_fetch c). Qed.

Lemma foldM_cost {A S : Type} (cost : list call -> nat) (body : S -> A -> M S)
    (w : A -> nat) :
  cost [] = 0 -> (forall a b, cost (a ++ b) = cost a + cost b) ->
  (forall s a, cost (trace (body s a)) <= w a) ->
  forall l s, cost (trace (foldM body l s)) <= list_sum (map w l).
Proof.
  intros C0 Capp Hb. induction l as [|a l IH]; intros s.
  - cbn. rewrite C0. lia.
  - cbn [foldM map].
    change (list_sum (w a :: map w l)) with (w a + list_sum (map w l)).
    rewrite trace_bind.
    specialize (Hb s a). destruct (outcome (body s a)) as [e|s1]; cbv iota; [lia|].
    rewrite Capp. specialize (IH s1). lia.
Qed.

Lemma reference_fields_sum (c : nat) (d : dict) :
  list_sum (map (fun it => if not_reference_key (fst it) then 0 else c) d)
  = c * List.length (reference_fields d).
Proof.
  unfold reference_fields. induction d as [|it d IH]; cbn [map filter].
  - cbn. lia.
  - change (list_sum (?x :: ?l)) with (x + list_sum l).
    destruct (not_reference_key (fst it)); cbn [negb List.length]; lia.
Qed.

#[local] Ltac open_cost db key value :=
  unfold level1_field, level2_field;
  destruct (not_reference_key key); [cbn; lia|];
  destruct (split_key key) as [b [|]];
  (destruct b as [|c r]; [cbn; lia|]);
  change (collection_name_of (String c r)) with (ret (capitalize (String c r)));
  rewrite bind_ret_l;
  unfold do_list_collection_names, do_find, do_find_one;
  (destruct (list_collection_names db) as [e|names]; [cbn; lia|]);
  rewrite bind_ok; cbn [trace outcome fst snd];
  (destruct (mem _ names); cbn [negb]; [|cbn; lia]);
  destruct value; try (cbn; lia).

(** An iteration of the inner loop makes at most one listing and one
    fetch, and none for a field outside the reference convention. *)
Lemma level2_field_cost {U : CaseTables} (db : Accessor) (d : dict) (item : string * bson) :
  List.length (trace (level2_field db d item))
  <= (if not_reference_key (fst item) then 0 else 2)
  /\ fetches (trace (level2_field db d item))
     <= (if not_reference_key (fst item) then 0 else 1).
Proof.
  destruct item as [key value]. cbn [fst]. open_cost db key value.
  - destruct (find db (capitalize (String c r)) l); cbn; lia.
  - destruct (find_one db (capitalize (String c r)) (VObjectId oid))
      as [e|[[|f d2]|]]; cbn; lia.
Qed.

Lemma resolve_level2_cost {U : CaseTables} (db : Accessor) (d : dict) :
  List.length (trace (resolve_level2 db d)) <= 2 * List.length (reference_fields d)
  /\ fetches (trace (resolve_level2 db d)) <= List.length (reference_fields d).
Proof.
  unfold resolve_level2. split.
  - rewrite <- reference_fields_sum.
    apply (foldM_cost (@List.length call)); [reflexivity | apply length_app |].
    intros s a. apply level2_field_cost.
  - rewrite <- (Nat.mul_1_l (List.length (reference_fields d))).
    rewrite <- reference_fields_sum.
    apply (foldM_cost fetches); [reflexivity | apply fetches_app |].
    intros s a. apply level2_field_cost.
Qed.

Lemma level1_field_cost {U : CaseTables} (db : Accessor) (bound : nat) (job : dict) (item : string * bson) :
  (forall d, fetched_one db d -> List.length (reference_fields d) <= bound) ->
  fetches (trace (level1_field db job item))
  <= (if not_reference_key (fst item) then 0 else 1 + bound).
Proof.
  intros HB. destruct item as [key value]. cbn [fst]. open_cost db key value.
  - destruct (find db (capitalize (String c r)) l); cbn; lia.
  - destruct (find_one db (capitalize (String c r)) (VObjectId oid))
      as [e|[[|f d1]|]] eqn:F; try (cbn; lia).
    rewrite bind_ok. cbn [trace outcome fst snd truthy app].
    rewrite trace_bind.
    assert (HF : fetched_one db (f :: d1))
      by (now exists (capitalize (String c r)), (VObjectId oid)).
    pose proof (proj2 (resolve_level2_cost db (f :: d1))) as H2.
    specialize (HB _ HF).
    destruct (outcome (resolve_level2 db (f :: d1))); cbn [ret trace fst];
      rewrite ?app_nil_r, !fetches_cons; cbn [is_fetch]; lia.
Qed.

(** X12.  The number of accessor calls does not depend on how many
    identifiers a field holds.  The inner loop makes at most two calls, of
    which at most one fetch, for each reference field of the document it
    runs on.  If every document a point lookup can return has at most
    [bound] reference fields, resolving a job makes at most [1 + bound]
    fetches for each of its reference fields. *)
Theorem X12_fetches_are_bounded_by_the_reference_fields {U : CaseTables}
    (db : Accessor) (bound : nat)
    (Hbound : forall d, fetched_one db d -> List.length (reference_fields d) <= bound) :
  (forall d,
      List.length (trace (resolve_level2 db d)) <= 2 * List.length (reference_fields d)
      /\ fetches (trace (resolve_level2 db d)) <= List.length (reference_fields d))
  /\ (forall job,
      fetches (trace (resolve_job db job))
      <= (1 + bound) * List.length (reference_fields job)).
Proof.
  split; [intros d; apply resolve_level2_cost|].
  intros job. unfold resolve_job. rewrite <- reference_fields_sum.
  apply (foldM_cost fetches); [reflexivity | apply fetches_app |].
  intros s a. now apply level1_field_cost.
Qed.

Lemma X12_fetches_are_bounded_by_the_reference_fields_witness :
  fetches (trace (resolve_job (U := ascii_tables) scenario_db job_j1))
  <= (1 + 1) * List.length (reference_fields job_j1).
Proof.
  refine (proj2 (X12_fetches_are_bounded_by_the_reference_fields (U := ascii_tables)
                   scenario_db 1 _) job_j1).
  intros d Hd. apply memory_db_fetched in Hd as (c & Hc & Hd).
  cbn in Hc. destruct Hc as [<-|[<-|[]]]; cbn in Hd; destruct Hd as [<-|[]];
    vm_compute; lia.
Defined.

(** ** The resolver: when it passes over, and when it succeeds *)

Section BaseNames.
Import Str StrFacts.

(** A reference key is its base name followed by its suffix. *)
Lemma reference_key_base (key : string) :
  not_reference_key key = false ->
  key = (fst (split_key key) ++ (if snd (split_key key) then "IDs" else "ID"))%string.
Proof.
  unfold not_reference_key, split_key. intros H.
  destruct (endswith key "IDs") eqn:E3; cbn [fst snd].
  - exact (endswith_inv key "IDs" E3).
  - destruct (endswith key "ID") eqn:E2; [|discriminate].
    exact (endswith_inv key "ID" E2).
Qed.

Lemma reference_key_cases (key : string) :
  not_reference_key key = false ->
  key = (fst (split_key key) ++ "ID")%string
  \/ key = (fst (split_key key) ++ "IDs")%string.
Proof.
  intros H. apply reference_key_base in H.
  destruct (snd (split_key key)); auto.
Qed.

Lemma reference_key_base_nonempty (key : string) :
  not_reference_key key = false -> key <> "ID" -> key <> "IDs" ->
  fst (split_key key) <> EmptyString.
Proof.
  intros H N2 N3 E. apply reference_key_cases in H. rewrite E in H.
  destruct H; contradiction.
Qed.

End BaseNames.

Lemma no_bare_suffix_In (d : dict) (it : string * bson) :
  no_bare_suffix d -> In it d -> fst it <> "ID" /\ fst it <> "IDs".
Proof.
  intros [H2 H3] Hin. apply (in_map fst) in Hin.
  split; intros E; rewrite E in Hin; contradiction.
Qed.

(** X13.  A job none of whose reference fields names an existing collection
    is returned as it is: for each reference field the collection names are
    listed once, and nothing is fetched. *)
Theorem X13_unknown_collections_are_passed_over {U : CaseTables}
    (db : Accessor) (names : list string) (job : dict)
    (Hlist : list_collection_names db = inr names)
    (Hbare : no_bare_suffix job)
    (Hunknown : forall it, In it job -> not_reference_key (fst it) = false ->
                  mem (capitalize (fst (split_key (fst it)))) names = false) :
  resolve_job db job
  = (repeat CListCollectionNames (List.length (reference_fields job)), inr job).
Proof.
  unfold resolve_job. revert Hbare Hunknown.
  generalize job at 4 6. generalize job.
  intros items.
  induction items as [|[key value] items IH]; intros s Hbare Hunknown; [reflexivity|].
  cbn [foldM]. unfold reference_fields. cbn [filter fst].
  assert (Hrest : foldM (level1_field db) items s
                  = (repeat CListCollectionNames (List.length (reference_fields items)),
                     inr s)).
  { apply IH.
    - destruct Hbare as [H2 H3]. split; intros H; [apply H2 | apply H3]; now right.
    - intros it Hit. apply Hunknown. now right. }
  destruct (not_reference_key key) eqn:K; cbn [negb].
  - rewrite (level1_field_passes_over db s (key, value) K), bind_ret_l. exact Hrest.
  - destruct (no_bare_suffix_In _ (key, value) Hbare (or_introl eq_refl)) as [N2 N3].
    rewrite (level1_field_unknown_collection db names Hlist
               (fst (split_key key)) (reference_key_base_nonempty key K N2 N3)
               s key value (reference_key_cases key K)
               (Hunknown (key, value) (or_introl eq_refl) K)).
    rewrite bind_ok, Hrest. reflexivity.
Qed.

Lemma X13_unknown_collections_are_passed_over_witness :
  resolve_job (U := ascii_tables) collision_db job_j1
  = ([CListCollectionNames], inr job_j1).
Proof.
  apply (X13_unknown_collections_are_passed_over (U := ascii_tables) collision_db
           ["Job"; "Customer"] job_j1).
  - reflexivity.
  - split; cbn; intuition discriminate.
  - intros it Hit K. cbn in Hit.
    repeat (destruct Hit as [<-|Hit]; [try discriminate K; reflexivity|]).
    contradiction.
Defined.

Lemma foldM_succeeds {A S : Type} (body : S -> A -> M S) (l : list A) :
  (forall s a, In a l -> exists s', outcome (body s a) = inr s') ->
  forall s, exists s', outcome (foldM body l s) = inr s'.
Proof.
  induction l as [|a l IH]; intros Hb s; [now exists s|].
  cbn [foldM]. rewrite outcome_bind.
  destruct (Hb s a (or_introl eq_refl)) as [s1 ->].
  apply IH. intros; apply Hb; now right.
Qed.

Lemma mapM_succeeds {A B : Type} (body : A -> M B) (l : list A) :
  (forall a, In a l -> exists b, outcome (body a) = inr b) ->
  exists bs, outcome (mapM body l) = inr bs /\ List.length bs = List.length l.
Proof.
  induction l as [|a l IH]; intros Hb; [now exists []|].
  cbn [mapM]. rewrite outcome_bind.
  destruct (Hb a (or_introl eq_refl)) as [b ->].
  destruct IH as (bs & Hbs & Hlen); [intros; apply Hb; now right|].
  rewrite outcome_bind, Hbs. exists (b :: bs). cbn. split; [reflexivity | now rewrite Hlen].
Qed.

Section Success.

Context {U : CaseTables}.
Variable db : Accessor.
Hypothesis healthy : never_raises db.

#[local] Ltac open_success key value K N2 N3 :=
  unfold level1_field, level2_field;
  rewrite K;
  pose proof (reference_key_base_nonempty key K N2 N3) as Hb;
  destruct (split_key key) as [b arr]; cbn [fst] in Hb;
  rewrite (collection_name_of_nonempty b Hb), bind_ret_l;
  destruct healthy as (_ & [names Hnames] & Hfind & Hfind_one);
  unfold do_list_collection_names, do_find, do_find_one;
  rewrite Hnames, bind_ok; cbn [trace outcome fst snd];
  (destruct (mem (capitalize b) names); cbn [negb]; [|eexists; reflexivity]);
  destruct arr; destruct value; try (eexists; reflexivity).

Lemma level2_field_succeeds (d : dict) (item : string * bson) :
  fst item <> "ID" -> fst item <> "IDs" ->
  exists d', outcome (level2_field db d item) = inr d'.
Proof.
  destruct item as [key value]. cbn [fst]. intros N2 N3.
  destruct (not_reference_key key) eqn:K.
  - rewrite (level2_field_passes_over db d (key, value) K). now exists d.
  - open_success key value K N2 N3.
    + destruct (Hfind (capitalize b) l) as [docs ->]. cbn. eexists; reflexivity.
    + destruct (Hfind_one (capitalize b) (VObjectId oid)) as [[[|f d2]|] ->];
        cbn; eexists; reflexivity.
Qed.

Lemma level1_field_succeeds (job : dict) (item : string * bson) :
  (forall d, fetched_one db d -> no_bare_suffix d) ->
  fst item <> "ID" -> fst item <> "IDs" ->
  exists job', outcome (level1_field db job item) = inr job'.
Proof.
  intros Hfetched. destruct item as [key value]. cbn [fst]. intros N2 N3.
  destruct (not_reference_key key) eqn:K.
  - rewrite (level1_field_passes_over db job (key, value) K). now exists job.
  - open_success key value K N2 N3.
    + destruct (Hfind (capitalize b) l) as [docs ->]. cbn. eexists; reflexivity.
    + destruct (Hfind_one (capitalize b) (VObjectId oid)) as [[[|f d1]|] F];
        rewrite F; try (cbn; eexists; reflexivity).
      rewrite bind_ok. cbn [trace outcome fst snd truthy]. rewrite outcome_bind.
      assert (HF : fetched_one db (f :: d1)) by (now exists (capitalize b), (VObjectId oid)).
      destruct (foldM_succeeds (level2_field db) (f :: d1)) with (s := f :: d1)
        as [d' Hd'].
      { intros s a Ha.
        destruct (no_bare_suffix_In _ a (Hfetched _ HF) Ha).
        now apply level2_field_succeeds. }
      unfold resolve_level2. rewrite Hd'. cbn. eexists; reflexivity.
Qed.

End Success.

(** X14.  The only failures are the ones the code shows.  If no operation
    of the accessor raises and no field is named exactly [ID] or [IDs], in
    the root documents and in the documents a point lookup can return, then
    [get_flattened_job_data] returns one document for each root
    document. *)
Theorem X14_healthy_accessor_gives_every_document {U : CaseTables}
    (db : Accessor) (limit : Z) (jobs : list dict)
    (Hhealthy : never_raises db)
    (Hagg : aggregate db limit = inr jobs)
    (Hroots : forall job, In job jobs -> no_bare_suffix job)
    (Hfetched : forall d, fetched_one db d -> no_bare_suffix d) :
  outcome (resolve_jobs db limit) = inr (get_flattened_job_data db limit)
  /\ List.length (get_flattened_job_data db limit) = List.length jobs.
Proof.
  unfold get_flattened_job_data, resolve_jobs.
  rewrite outcome_bind. cbn [do_aggregate outcome snd]. rewrite Hagg.
  destruct (mapM_succeeds (resolve_job db) jobs) as (jobs' & -> & Hlen).
  - intros job Hjob. unfold resolve_job. apply foldM_succeeds.
    intros s a Ha. destruct (no_bare_suffix_In _ a (Hroots _ Hjob) Ha).
    now apply level1_field_succeeds.
  - split; [reflexivity | exact Hlen].
Qed.

Lemma X14_healthy_accessor_gives_every_document_witness :
  List.length (get_flattened_job_data (U := ascii_tables) chain_db 10)
  = List.length [job_j1].
Proof.
  refine (proj2 (X14_healthy_accessor_gives_every_document (U := ascii_tables)
                   chain_db 10 [job_j1]
                   _ eq_refl _ _)).
  - repeat split; intros; eexists; reflexivity.
  - intros job [<-|[]]. split; cbn; intuition discriminate.
  - intros d Hd. apply memory_db_fetched in Hd as (c & Hc & Hd).
    cbn in Hc. destruct Hc as [<-|[<-|[<-|[]]]]; cbn in Hd; destruct Hd as [<-|[]];
      split; cbn; intuition discriminate.
Defined.

(** ** The export and the summary of [main] *)

Lemma In_dict_get (k : string) (v : bson) (d : dict) :
  NoDup (keys d) -> In (k, v) d -> dict_get k d = Some v.
Proof.
  induction d as [|[k' v'] d IH]; cbn; intros Hnd Hin; [contradiction|].
  inversion Hnd as [|? ? Hk Hd]; subst.
  destruct Hin as [[= -> ->]|Hin]; [now rewrite String.eqb_refl|].
  destruct (String.eqb_spec k' k) as [->|N]; [|now apply IH].
  exfalso. apply Hk. now apply (in_map fst) in Hin.
Qed.

Lemma resolve_job_NoDup {U : CaseTables} (db : Accessor) (job job' : dict) :
  outcome (resolve_job db job) = inr job' -> NoDup (keys job) -> NoDup (keys job').
Proof.
  unfold resolve_job. generalize job at 2 3. generalize job.
  intros items. induction items as [|it items IH]; intros s H Hs.
  - cbn in H. now injection H as <-.
  - cbn [foldM] in H. apply bind_inr in H as (s1 & H1 & H).
    apply (IH _ H). apply level1_effect in H1 as [->|(x & ->)]; [exact Hs|].
    now apply dict_set_NoDup.
Qed.

(** A scalar field of a root document reaches the row of the resolved
    document. *)
Lemma resolved_row_keeps_root_scalars {U : CaseTables}
    (db : Accessor) (job job' : dict) (f : string) (v : bson)
    (Hres : outcome (resolve_job db job) = inr job')
    (Hkeys : NoDup (keys job))
    (Hfield : In (f, v) job)
    (Hscalar : is_scalar v = true)
    (Hname : forall it, In it job -> not_reference_key (fst it) = false ->
               attach_name (fst it) <> f)
    (Hnames : ~ In EmptyString (keys job'))
    (Hclear : forall k', In k' (keys job') -> ~ below k' f) :
  dict_get f (flatten_nested_document (VDict job') "" None) = Some v.
Proof.
  rewrite flatten_None.
  apply (flatten_scalar_survives "" job' [] f v); auto.
  - now apply (resolve_job_NoDup db job).
  - apply dict_get_In.
    assert (G : forall items s s',
               outcome (foldM (level1_field db) items s) = inr s' ->
               (forall it, In it items -> not_reference_key (fst it) = false ->
                  attach_name (fst it) <> f) ->
               dict_get f s' = dict_get f s).
    { induction items as [|it items IH]; intros s s' H Hn.
      - cbn in H. now injection H as <-.
      - cbn [foldM] in H. apply bind_inr in H as (s1 & H1 & H).
        rewrite (IH _ _ H) by (intros; apply Hn; [now right | assumption]).
        apply level1_effect_reference in H1 as [->|(K & x & ->)]; [reflexivity|].
        apply dict_get_set_other. intros E.
        apply (Hn it); [now left | exact K | now symmetry]. }
    unfold resolve_job in Hres. rewrite (G _ _ _ Hres Hname).
    now apply In_dict_get.
Qed.

(** X15.  Every row of the export of [main] is the flattening of the
    document resolved from one root document of the aggregation, and holds
    scalars only.  It keeps the scalar fields of that root: a scalar field of
    the root appears in the row under its own name with its own value,
    provided the root's field names are distinct, the name of the field is
    not a name derived from one of the root's reference fields, and no field
    name of the resolved document is empty or, followed by an underscore,
    starts the name of the field. *)
Theorem X15_export_row_keeps_root_scalars {U : CaseTables}
    (db : Accessor) (limit : Z) (row : dict)
    (Hrow : In row (export_rows db limit)) :
  exists jobs job job',
    aggregate db limit = inr jobs /\ In job jobs
    /\ outcome (resolve_job db job) = inr job'
    /\ row = flatten_nested_document (VDict job') "" None
    /\ flat_dict row
    /\ forall f v,
         NoDup (keys job) -> In (f, v) job -> is_scalar v = true ->
         (forall it, In it job -> not_reference_key (fst it) = false ->
            attach_name (fst it) <> f) ->
         ~ In EmptyString (keys job') ->
         (forall k', In k' (keys job') -> ~ below k' f) ->
         dict_get f row = Some v.
Proof.
  unfold export_rows in Hrow. apply in_map_iff in Hrow as (job' & <- & Hin).
  unfold get_flattened_job_data in Hin.
  destruct (outcome (resolve_jobs db limit)) as [e|jobs'] eqn:R; [contradiction|].
  unfold resolve_jobs in R. apply bind_inr in R as (jobs & A & R).
  destruct (mapM_inr_In _ _ _ _ R Hin) as (job & Hjob & Hres).
  exists jobs, job, job'. repeat split; try assumption.
  - apply (flatten_flat (VDict job') "" None). constructor.
  - intros f v Hkeys Hfield Hscalar Hname Hnames Hclear.
    now apply (resolved_row_keeps_root_scalars db job job').
Qed.

Lemma X15_export_row_keeps_root_scalars_witness :
  exists jobs job job',
    aggregate scenario_db 10 = inr jobs /\ In job jobs
    /\ outcome (resolve_job (U := ascii_tables) scenario_db job) = inr job'
    /\ [("_id", VObjectId "j1"); ("jobLocationID", VObjectId "loc1");
        ("joblocation__id", VObjectId "loc1");
        ("joblocation_customerID", VObjectId "c1");
        ("joblocation_name", VStr "Site A");
        ("joblocation_customer__id", VObjectId "c1");
        ("joblocation_customer_name", VStr "Acme")]
       = flatten_nested_document (VDict job') "" None
    /\ flat_dict
         [("_id", VObjectId "j1"); ("jobLocationID", VObjectId "loc1");
          ("joblocation__id", VObjectId "loc1");
          ("joblocation_customerID", VObjectId "c1");
          ("joblocation_name", VStr "Site A");
          ("joblocation_customer__id", VObjectId "c1");
          ("joblocation_customer_name", VStr "Acme")]
    /\ forall f v,
         NoDup (keys job) -> In (f, v) job -> is_scalar v = true ->
         (forall it, In it job -> not_reference_key (fst it) = false ->
            attach_name (U := ascii_tables) (fst it) <> f) ->
         ~ In EmptyString (keys job') ->
         (forall k', In k' (keys job') -> ~ below k' f) ->
         dict_get f
           [("_id", VObjectId "j1"); ("jobLocationID", VObjectId "loc1");
            ("joblocation__id", VObjectId "loc1");
            ("joblocation_customerID", VObjectId "c1");
            ("joblocation_name", VStr "Site A");
            ("joblocation_customer__id", VObjectId "c1");
            ("joblocation_customer_name", VStr "Acme")]
         = Some v.
Proof.
  apply (X15_export_row_keeps_root_scalars (U := ascii_tables) scenario_db 10).
  left. reflexivity.
Defined.

Lemma attach_name_suffix_free {U : CaseTables} (key : string) :
  lower_has_no_D U ->
  Str.endswith (attach_name key) "ID" = false
  /\ Str.endswith (attach_name key) "IDs" = false.
Proof.
  intros HU. apply StrFacts.no_D_endswith. unfold attach_name.
  destruct (split_key key) as [b [|]].
  - rewrite StrFacts.has_char_app, HU. reflexivity.
  - apply HU.
Qed.

Lemma resolve_level2_new_fields {U : CaseTables} (db : Accessor) (items : dict) (s s' : dict) :
  outcome (foldM (level2_field db) items s) = inr s' ->
  forall k v, In (k, v) s' ->
    In (k, v) s
    \/ (attached_verbatim db v /\ exists it : string * bson, k = attach_name (fst it)).
Proof.
  revert s. induction items as [|it items IH]; intros s H k v Hin.
  - cbn in H. injection H as <-. now left.
  - cbn [foldM] in H. apply bind_inr in H as (s1 & H1 & H).
    destruct (IH _ H _ _ Hin) as [Hin1|]; [|now right].
    apply level2_field_effect in H1 as [->|(x & Hx & ->)]; [now left|].
    apply dict_set_In in Hin1 as [[= -> ->]|]; [right|now left].
    split; [exact Hx | now exists it].
Qed.

(** A field the inner loop added is reported by [level2_rels] unless it
    holds the empty list. *)
Lemma level2_rels_new_fields {U : CaseTables} (db : Accessor) (d d' : dict)
    (k : string) (v : bson) :
  lower_has_no_D U ->
  outcome (resolve_level2 db d) = inr d' ->
  In (k, v) d' -> ~ In k (keys d) -> v <> VList [] ->
  In k (level2_rels d').
Proof.
  intros HU Hres Hin Hnew Hv. unfold level2_rels.
  apply in_map_iff. exists (k, v). split; [reflexivity|].
  apply filter_In. split; [exact Hin|].
  unfold resolve_level2 in Hres.
  destruct (resolve_level2_new_fields db d d d' Hres k v Hin) as [Hold|[Hx [it ->]]].
  { exfalso. apply Hnew. now apply (in_map fst) in Hold. }
  destruct (attach_name_suffix_free (fst it) HU) as [-> ->]. cbn [negb andb].
  destruct Hx as [(d2 & -> & _)|(ds & -> & _)]; [reflexivity|].
  destruct ds as [|d2 ds]; [contradiction | reflexivity].
Qed.

(** A relation holding a document in which [level2_rels] finds a name has
    its line in the level-2 part of the summary. *)
Lemma level2_summary_line (job rel_obj : dict) (rel k : string) :
  In rel (level1_relations job) ->
  dict_get rel job = Some (VDict rel_obj) ->
  In k (level2_rels rel_obj) ->
  In (rel, level2_rels rel_obj) (level2_summary job) /\ 0 < level2_count job.
Proof.
  intros Hrel Hget Hk.
  assert (Hline : In (rel, level2_rels rel_obj) (level2_summary job)).
  { unfold level2_summary. apply in_flat_map. exists rel. split; [exact Hrel|].
    rewrite Hget. destruct (level2_rels rel_obj); [contradiction | now left]. }
  split; [exact Hline|]. unfold level2_count.
  induction (level2_summary job) as [|line lines IH]; [contradiction|].
  cbn [map]. change (list_sum (?x :: ?l)) with (x + list_sum l).
  destruct Hline as [->|Hline].
  - cbn [snd]. destruct (level2_rels rel_obj); [contradiction | cbn [List.length]; lia].
  - specialize (IH Hline). lia.
Qed.

Lemma Forall2_firstn_map {A B C : Type} (R : A -> B -> Prop) (R' : A -> C -> Prop)
    (g : B -> C) (n : nat) (l : list A) (l' : list B) :
  (forall a b, R a b -> R' a (g b)) ->
  Forall2 R l l' -> Forall2 R' (firstn n l) (map g (firstn n l')).
Proof.
  intros Hg H. revert n. induction H as [|a b l l' Hab _ IH]; intros n.
  - rewrite !firstn_nil. constructor.
  - destruct n as [|n]; [constructor|]. cbn [firstn map].
    constructor; [now apply Hg | apply IH].
Qed.

(** X16.  The summary of [main] does not miss what the resolver attached to
    the jobs it reports on.  When the call succeeds, the summary has one
    entry for each of the first three root documents, in order, computed
    from the document resolved from that root.  In it, every field of the
    resolved job that is not a field of the root document is listed among
    the level-1 relations, unless its name is one of the eighteen names the
    summary leaves out.  For a single reference of the root whose document
    was fetched and attached under a name that is not one of the eighteen
    (and that no later reference field derives again), every field the
    inner loop added to the fetched document is named in the level-2 line
    of that relation, unless it holds the empty list; the summary then
    counts at least one level-2 relation. *)
Theorem X16_summary_lists_the_attached_fields {U : CaseTables}
    (db : Accessor) (limit : Z) (jobs jobs' : list dict)
    (Htables : lower_has_no_D U)
    (Hagg : aggregate db limit = inr jobs)
    (Hok : outcome (resolve_jobs db limit) = inr jobs') :
  Forall2
    (fun job entry =>
       exists job',
         outcome (resolve_job db job) = inr job'
         /\ entry = (level1_relations job', level2_summary job')
         /\ (forall n,
               In n (keys job') -> ~ In n (keys job) -> mem n summary_fields = false ->
               In n (fst entry))
         /\ (forall names base before after oid f d,
               list_collection_names db = inr names ->
               base <> EmptyString ->
               mem (capitalize base) names = true ->
               job = before ++ ((base ++ "ID")%string, VObjectId oid) :: after ->
               find_one db (capitalize base) (VObjectId oid) = inr (Some (f :: d)) ->
               clear_of (str_lower base) after ->
               mem (str_lower base) summary_fields = false ->
               exists d',
                 outcome (resolve_level2 db (f :: d)) = inr d'
                 /\ forall k v,
                      In (k, v) d' -> ~ In k (keys (f :: d)) -> v <> VList [] ->
                      exists rels,
                        In (str_lower base, rels) (snd entry) /\ In k rels
                        /\ 0 < level2_count job'))
    (firstn 3 jobs) (main_summary (get_flattened_job_data db limit)).
Proof.
  destruct (resolve_jobs_pairs db limit jobs jobs' Hagg Hok) as [-> Hpairs].
  unfold main_summary.
  apply (Forall2_firstn_map
           (fun job job' => outcome (resolve_job db job) = inr job')); [|exact Hpairs].
  intros job job' Hres. exists job'. split; [exact Hres|]. split; [reflexivity|].
  cbn [fst snd]. split.
  - intros n Hin Hnew Hsum. unfold level1_relations.
    apply filter_In. split; [exact Hin|].
    unfold resolve_job in Hres.
    destruct (foldM_level1_extends db job job job job') as (extra & Hk & Hextra); auto.
    { exists []. split; [now rewrite app_nil_r | constructor]. }
    rewrite Hk in Hin. apply in_app_or in Hin as [Hin|Hin]; [contradiction|].
    rewrite Forall_forall in Hextra. destruct (Hextra n Hin) as (it & _ & _ & ->).
    destruct (attach_name_suffix_free (fst it) Htables) as [-> ->]. now rewrite Hsum.
  - intros names base before after oid f d Hlist Hbase Hknown -> F Hclear Hsum.
    unfold resolve_job in Hres.
    destruct (outer_loop_single db names Hlist base Hbase Hknown _ _ _ _ _ _ _ F Hres)
      as (d' & Hd' & Hget & _).
    specialize (Hget Hclear). exists d'. split; [exact Hd'|].
    intros k v Hin Hnew Hv.
    pose proof (level2_rels_new_fields db (f :: d) d' k v Htables Hd' Hin Hnew Hv) as Hk.
    assert (Hrel : In (str_lower base) (level1_relations job')).
    { unfold level1_relations. apply filter_In. split.
      - apply dict_get_In in Hget. now apply (in_map fst) in Hget.
      - destruct (StrFacts.no_D_endswith _ (Htables base)) as [-> ->]. now rewrite Hsum. }
    destruct (level2_summary_line job' d' (str_lower base) k Hrel Hget Hk) as [Hline Hcount].
    exists (level2_rels d'). now repeat split.
Qed.

Lemma X16_summary_lists_the_attached_fields_witness :
  Forall2
    (fun job entry => In "joblocation" (fst entry))
    [job_j1] (main_summary (get_flattened_job_data (U := ascii_tables) scenario_db 10)).
Proof.
  pose proof (X16_summary_lists_the_attached_fields (U := ascii_tables) scenario_db 10
                [job_j1] _ ascii_tables_no_D eq_refl eq_refl) as H.
  assert (E : main_summary (get_flattened_job_data (U := ascii_tables) scenario_db 10)
              = [(["joblocation"], [("joblocation", ["customer"])])]) by reflexivity.
  rewrite E in *. cbn [firstn] in H.
  inversion H as [|job entry l l' (job' & Hres & _ & Hn & _) _]; subst.
  constructor; [|constructor].
  vm_compute in Hres. injection Hres as <-. apply Hn.
  - right. right. left. reflexivity.
  - cbn. intuition discriminate.
  - reflexivity.
Defined.

(** ** A field named [ID] in a referenced document *)

(** X17.  A field named exactly [ID] or [IDs] in a document fetched for a
    single reference of a root document discards the batch as well: the
    inner loop raises [IndexError] on it and [get_flattened_job_data]
    returns the empty list. *)
Theorem X17_field_named_ID_in_a_referenced_document {U : CaseTables}
    (db : Accessor) (limit : Z) (jobs : list dict) (job : dict)
    (names : list string) (base oid : string) (f : string * bson) (d : dict)
    (Hagg : aggregate db limit = inr jobs)
    (Hjob : In job jobs)
    (Hfield : In ((base ++ "ID")%string, VObjectId oid) job)
    (Hlist : list_collection_names db = inr names)
    (Hbase : base <> EmptyString)
    (Hknown : mem (capitalize base) names = true)
    (Hfetch : find_one db (capitalize base) (VObjectId oid) = inr (Some (f :: d)))
    (Hkey : In "ID" (keys (f :: d)) \/ In "IDs" (keys (f :: d))) :
  (exists e, outcome (resolve_level2 db (f :: d)) = inl e)
  /\ get_flattened_job_data db limit = [].
Proof.
  assert (L2 : exists e, outcome (resolve_level2 db (f :: d)) = inl e).
  { unfold resolve_level2.
    assert (exists it, In it (f :: d) /\ (fst it = "ID" \/ fst it = "IDs"))
      as (it & Hit & Hk).
    { unfold keys in Hkey. destruct Hkey as [H|H];
        apply in_map_iff in H as (it & E & Hit); exists it; auto. }
    apply (foldM_raises _ _ it Hit). intros s. exists IndexError.
    destruct it as [key value]. cbn [fst] in Hk. destruct Hk as [->| ->]; reflexivity. }
  assert (R : exists e, outcome (resolve_jobs db limit) = inl e).
  { unfold resolve_jobs. rewrite outcome_bind. cbn [do_aggregate outcome snd].
    rewrite Hagg. apply (mapM_raises _ _ job Hjob).
    unfold resolve_job. apply (foldM_raises _ _ _ Hfield). intros s.
    rewrite (level1_field_single db names Hlist base Hbase Hknown), Hfetch.
    cbn [outcome snd]. destruct L2 as [e ->]. eauto. }
  split; [exact L2|].
  unfold get_flattened_job_data. now destruct R as [e ->].
Qed.

Lemma X17_field_named_ID_in_a_referenced_document_witness :
  get_flattened_job_data (U := ascii_tables) stray_db 10 = [].
Proof.
  refine (proj2 (X17_field_named_ID_in_a_referenced_document (U := ascii_tables)
                   stray_db 10
                   [job_j1] job_j1 ["Job"; "JobLocation"] "jobLocation" "loc1"
                   ("_id", VObjectId "loc1") [("ID", VStr "L-1")]
                   eq_refl _ _ eq_refl _ eq_refl eq_refl _)).
  - left. reflexivity.
  - right. left. reflexivity.
  - discriminate.
  - left. right. left. reflexivity.
Defined.

(** ** Names outside ASCII *)

Lemma ascii_char_not_lead (a : ascii) :
  Str.is_ascii_char a = true -> Ascii.eqb a (ascii_of_nat 195) = false.
Proof. destruct a as [[] [] [] [] [] [] [] []]; try reflexivity; discriminate. Qed.

Lemma latin_lower_ascii (s : string) :
  Str.is_ascii s = true -> latin_lower s = Str.ascii_lower s.
Proof.
  assert (G : forall s,
             (Str.is_ascii s = true -> latin_lower s = Str.ascii_lower s)
             /\ (forall a, Str.is_ascii (String a s) = true ->
                   latin_lower (String a s) = Str.ascii_lower (String a s))).
  { clear s. induction s as [|b r [IH1 IH2]].
    - split; [reflexivity|]. intros a _. reflexivity.
    - split; [apply IH2|]. intros a H.
      cbn [Str.is_ascii] in H. apply andb_true_iff in H as [Ha Hr].
      cbn [latin_lower]. rewrite (ascii_char_not_lead a Ha). cbn [andb].
      cbn [Str.ascii_lower]. f_equal.
      change (latin_lower (String b r) = Str.ascii_lower (String b r)).
      now apply IH2. }
  apply G.
Qed.

Lemma latin_lower_no_D (s : string) : Str.has_char "D" (latin_lower s) = false.
Proof.
  assert (G : forall s,
             Str.has_char "D" (latin_lower s) = false
             /\ forall a, Str.has_char "D" (latin_lower (String a s)) = false).
  { clear s. induction s as [|b r [IH1 IH2]].
    - split; [reflexivity|]. intros a. cbn.
      now rewrite StrFacts.ascii_lower_char_not_D.
    - split; [apply IH2|]. intros a. cbn [latin_lower].
      destruct (Ascii.eqb a (ascii_of_nat 195) && Ascii.eqb b (ascii_of_nat 137)) eqn:E.
      + apply andb_true_iff in E as [Ea _]. apply Ascii.eqb_eq in Ea. subst a.
        cbn [Str.has_char]. rewrite IH1. reflexivity.
      + cbn [Str.has_char]. rewrite StrFacts.ascii_lower_char_not_D. cbn [orb].
        apply IH2. }
  apply G.
Qed.

(** The tables that know the accented pair have the two properties asked of
    the tables.  With them the field [...coleID] whose base name starts with
    the upper-case letter is attached under the base name with the
    lower-case letter, and the field whose base name starts with the
    lower-case letter is looked up in the collection whose name starts with
    the upper-case letter. *)
Example names_outside_ascii :
  agrees_on_ascii latin_tables
  /\ lower_has_no_D latin_tables
  /\ attach_name (U := latin_tables) (E_acute ++ "coleIDs") = (e_acute ++ "coles")%string
  /\ collection_name_of (U := latin_tables) (e_acute ++ "cole")
     = ret (E_acute ++ "cole")%string
  /\ resolve_jobs (U := latin_tables) school_db 10
     = ([CAggregate 10;
         CListCollectionNames; CFindOne (E_acute ++ "cole") (VObjectId "s1");
         CListCollectionNames; CFindOne (E_acute ++ "cole") (VObjectId "s1")],
        inr [job_j6 ++ [((e_acute ++ "cole")%string, VDict school_s1)];
             job_j7 ++ [((e_acute ++ "cole")%string, VDict school_s1)]]).
Proof.
  split; [|split; [exact latin_lower_no_D | repeat split; reflexivity]].
  split; [exact latin_lower_ascii | intros c _; reflexivity].
Qed.
